(** * ONNX backend factory: artifact resolution and backend construction

    A shallow embedding of [src/backends/onnx/onnx_backend_factory.cc]
    ([OnnxBackendFactory::Create], [OnnxBackendFactory::CreateBackend] and the
    factory destructor) together with the properties of the pipeline that
    the design document states about it.

    The C++ code threads three kinds of effects through its calls: calls to
    collaborators (filesystem, loader, backend), early returns through
    [RETURN_IF_ERROR], and scope-bound resources (the vector of shared
    temporary directories, the unique pointers).  They are modelled by a
    small state monad with three results: normal completion, early return
    with a status, and undefined behaviour (an out-of-range element access). *)

From Stdlib Require Import String Ascii List ZArith Lia Sorted OrderedTypeEx.
From stdpp Require Import base option list gmap fin_maps strings.

Local Open Scope string_scope.
Local Open Scope list_scope.

(** ** Status values *)

(** Modelled from the spec: [Status] ([src/core/status.h] is not part of the
    sources).  A status is either success or a structured error made of one
    of the error kinds of the design document and a message. *)
Inductive ErrorKind : Type :=
| EnumerationError
| LocalizationError
| ReadError
| InitializationError
| ConfigTypeError
| ConfigValidationError
| ExecutionContextError.

Inductive Status : Type :=
| Success
| Error (kind : ErrorKind) (msg : string).

Definition IsOk (st : Status) : bool :=
  match st with
  | Success => true
  | Error _ _ => false
  end.

(** ** Data passed through unchanged *)

(** [const double min_compute_capability]: the value is only handed to the
    backend constructor, so it is carried by its 64-bit pattern. *)
Definition double : Type := Z.

(** [ModelConfig] is a protobuf message that [CreateBackend] only forwards;
    it is carried by its serialised bytes. *)
Definition ModelConfig : Type := string.

(** The dynamic type of the object behind a [shared_ptr<BackendConfig>]. *)
Inductive ConfigShape : Type :=
| OnnxRuntimeConfig
| OtherRuntimeConfig (runtime : string).

Record BackendConfig : Type := mkBackendConfig {
  dynamic_type : ConfigShape;
  settings : string
}.

(** [std::static_pointer_cast<Config>(backend_config)]: the cast converts the
    static type of the pointer and performs no run-time check; the pointer
    it yields is the one it was given, whatever object is behind it. *)
Definition static_pointer_cast_Config (backend_config : BackendConfig)
  : BackendConfig := backend_config.

Record OnnxBackendFactory : Type := mkFactory {
  backend_config_ : BackendConfig
}.

(** ** The artifact map

    [std::unordered_map<std::string, std::pair<bool, std::string>>]: the flag
    is [true] for file contents and [false] for the path of a localized
    subdirectory. *)
Abbreviation ArtifactMap := (gmap string (bool * string)).

Definition Inline (contents : string) : bool * string := (true, contents).
Definition Localized (path : string) : bool * string := (false, path).

(** [unordered_map::emplace]: inserts only when the key is absent. *)
Definition emplace (k : string) (v : bool * string) (m : ArtifactMap)
  : ArtifactMap :=
  match m !! k with
  | Some _ => m
  | None => <[k := v]> m
  end.

(** ** [std::set<std::string>]

    An ordered set of strings, kept as a strictly increasing list for the
    byte-wise lexicographic order; iteration follows the list. *)
Fixpoint set_insert (x : string) (s : list string) : list string :=
  match s with
  | [] => [x]
  | y :: s' =>
      match String.compare x y with
      | Lt => x :: y :: s'
      | Eq => y :: s'
      | Gt => y :: set_insert x s'
      end
  end.

Definition set_insert_all (names : list string) (s : list string)
  : list string :=
  fold_right set_insert s names.

(** ** Objects *)

(** [TemporaryDirectory] ([src/core/filesystem.h], not part of the sources):
    only its [model_path] member is read. *)
Record TemporaryDirectory : Type := mkTemporaryDirectory {
  model_path : string
}.

(** Modelled from the spec: [OnnxBackend] ([onnx_backend.h] is not part of
    the sources).  A backend owns the compute-capability floor it was built
    with, the configuration it was initialised with and the artifact map its
    execution contexts were created from. *)
Record OnnxBackend : Type := mkOnnxBackend {
  min_compute_capability_ : double;
  initialized_with : option (string * ModelConfig * string);
  contexts_from : option ArtifactMap
}.

Definition new_OnnxBackend (min_compute_capability : double) : OnnxBackend :=
  {| min_compute_capability_ := min_compute_capability;
     initialized_with := None;
     contexts_from := None |}.

(** ** Collaborators

    The functions and the constant the factory uses and that live outside
    the file.  Each is taken as a parameter: a function of its arguments
    that yields a status and what the call writes through its output
    argument.  An enumeration yields the names it inserts into the set it is
    given; a localization yields the new state of the temporary directory
    object. *)
Record Env : Type := mkEnv {
  GetDirectoryFiles : string -> bool -> Status * list string;
  GetDirectorySubdirs : string -> Status * list string;
  JoinPath : list string -> string;
  TemporaryDirectory_ctor : nat -> string -> TemporaryDirectory;
  LocalizeFileFolder :
    string -> TemporaryDirectory -> Status * TemporaryDirectory;
  ReadTextFile : string -> Status * string;
  kOnnxRuntimeOnnxPlatform : string;
  OnnxBackend_Init : OnnxBackend -> string -> ModelConfig -> string -> Status;
  OnnxBackend_CreateExecutionContexts : OnnxBackend -> ArtifactMap -> Status;
  OnnxLoader_Init : Status
}.

(** ** Observable events *)
Inductive Event : Type :=
| EvGetDirectoryFiles (path : string) (skip_hidden_files : bool) (st : Status)
| EvGetDirectorySubdirs (path : string) (st : Status)
| EvNewTemporaryDirectory (h : nat)
| EvLocalizeFileFolder (path : string) (h : nat) (st : Status)
| EvReadTextFile (path : string) (st : Status)
| EvBackendInit (path : string) (platform : string) (st : Status)
| EvCreateExecutionContexts (models : ArtifactMap) (st : Status)
| EvDeleteTemporaryDirectory (h : nat)
| EvLoaderInit (st : Status)
| EvLoaderStop.

(** ** Program state *)
Record State : Type := mkState {
  next_handle : nat;
  live : gmap nat TemporaryDirectory;
  trace : list Event;
  backend_out : option OnnxBackend;
  factory_out : option OnnxBackendFactory
}.

Definition log (ev : Event) (σ : State) : State :=
  {| next_handle := next_handle σ;
     live := live σ;
     trace := trace σ ++ [ev];
     backend_out := backend_out σ;
     factory_out := factory_out σ |}.

Definition set_live (l : gmap nat TemporaryDirectory) (σ : State) : State :=
  {| next_handle := next_handle σ;
     live := l;
     trace := trace σ;
     backend_out := backend_out σ;
     factory_out := factory_out σ |}.

Definition set_next_handle (n : nat) (σ : State) : State :=
  {| next_handle := n;
     live := live σ;
     trace := trace σ;
     backend_out := backend_out σ;
     factory_out := factory_out σ |}.

Definition set_backend_out (b : option OnnxBackend) (σ : State) : State :=
  {| next_handle := next_handle σ;
     live := live σ;
     trace := trace σ;
     backend_out := b;
     factory_out := factory_out σ |}.

Definition set_factory_out (f : option OnnxBackendFactory) (σ : State)
  : State :=
  {| next_handle := next_handle σ;
     live := live σ;
     trace := trace σ;
     backend_out := backend_out σ;
     factory_out := f |}.

(** ** The monad *)
Inductive Res (A : Type) : Type :=
| Ok (a : A)
| Ret (st : Status)
| Fault.
Arguments Ok {A} a.
Arguments Ret {A} st.
Arguments Fault {A}.

Definition M (A : Type) : Type := State -> Res A * State.

Definition ret {A} (a : A) : M A := fun σ => (Ok a, σ).

Definition bind {A B} (m : M A) (f : A -> M B) : M B :=
  fun σ =>
    match m σ with
    | (Ok a, σ') => f a σ'
    | (Ret st, σ') => (Ret st, σ')
    | (Fault, σ') => (Fault, σ')
    end.

Declare Scope cpp_scope.
Delimit Scope cpp_scope with cpp.
Notation "'let*' x ':=' c1 'in' c2" := (bind c1 (fun x => c2))
  (at level 10, x pattern, c1 at level 100, c2 at level 200) : cpp_scope.
Notation "c1 ;; c2" := (bind c1 (fun _ => c2))
  (at level 100, right associativity) : cpp_scope.

(** [RETURN_IF_ERROR(S)]: leaves the function with [S] unless it is ok. *)
Definition RETURN_IF_ERROR (st : Status) : M unit :=
  fun σ => if IsOk st then (Ok tt, σ) else (Ret st, σ).

Definition undefined_behaviour {A} : M A := fun σ => (Fault, σ).

(** Range-based [for]: the body receives the element and the variables the
    loop updates. *)
Fixpoint for_each {A S} (l : list A) (body : A -> S -> M S) (acc : S)
  : M S :=
  match l with
  | [] => ret acc
  | x :: l' => bind (body x acc) (fun acc' => for_each l' body acc')
  end.

(** Runs [cleanup] when [body] leaves the scope, normally or by a return. *)
Definition at_scope_exit {A} (cleanup : State -> State) (body : M A) : M A :=
  fun σ =>
    match body σ with
    | (Fault, σ') => (Fault, σ')
    | (r, σ') => (r, cleanup σ')
    end.

(** Runs [cleanup] when [body] leaves the function by a return. *)
Definition on_early_return {A} (cleanup : State -> State) (body : M A)
  : M A :=
  fun σ =>
    match body σ with
    | (Ret st, σ') => (Ret st, cleanup σ')
    | r => r
    end.

Inductive Outcome : Type :=
| Returned (st : Status)
| UndefinedBehaviour.

Definition function_body (body : M Status) (σ : State) : Outcome * State :=
  match body σ with
  | (Ok st, σ') => (Returned st, σ')
  | (Ret st, σ') => (Returned st, σ')
  | (Fault, σ') => (UndefinedBehaviour, σ')
  end.

(** ** Shared temporary directories *)

(** Destructor of the last [shared_ptr] to a temporary directory. *)
Definition release (h : nat) (σ : State) : State :=
  log (EvDeleteTemporaryDirectory h) (set_live (delete h (live σ)) σ).

(** Destructor of [std::vector<std::shared_ptr<TemporaryDirectory>>]. *)
Definition destroy_vector (v : list (option nat)) (σ : State) : State :=
  fold_left
    (fun σ' p => match p with Some h => release h σ' | None => σ' end) v σ.

(** [v[i]] on a vector: defined only inside the bounds. *)
Definition vector_at {A} (v : list A) (i : nat) : M A :=
  match v !! i with
  | Some x => ret x
  | None => undefined_behaviour
  end.

(** [p->model_path]. *)
Definition deref_model_path (p : option nat) : M string :=
  fun σ =>
    match p with
    | Some h =>
        match live σ !! h with
        | Some obj => (Ok (model_path obj), σ)
        | None => (Fault, σ)
        end
    | None => (Fault, σ)
    end.

Section Factory.

Variable E : Env.

(** [std::make_shared<TemporaryDirectory>(arg)]. *)
Definition make_shared_TemporaryDirectory (arg : string) : M (option nat) :=
  fun σ =>
    let h := next_handle σ in
    (Ok (Some h),
     log (EvNewTemporaryDirectory h)
       (set_live (<[h := TemporaryDirectory_ctor E h arg]> (live σ))
          (set_next_handle (S h) σ))).

Definition call_GetDirectoryFiles (path : string) (skip_hidden_files : bool)
  (files : list string) : M (Status * list string) :=
  fun σ =>
    let '(st, names) := GetDirectoryFiles E path skip_hidden_files in
    (Ok (st, set_insert_all names files),
     log (EvGetDirectoryFiles path skip_hidden_files st) σ).

Definition call_GetDirectorySubdirs (path : string) (subdirs : list string)
  : M (Status * list string) :=
  fun σ =>
    let '(st, names) := GetDirectorySubdirs E path in
    (Ok (st, set_insert_all names subdirs),
     log (EvGetDirectorySubdirs path st) σ).

Definition call_LocalizeFileFolder (path : string) (p : option nat)
  : M Status :=
  fun σ =>
    match p with
    | Some h =>
        match live σ !! h with
        | Some obj =>
            let '(st, obj') := LocalizeFileFolder E path obj in
            (Ok st,
             log (EvLocalizeFileFolder path h st)
               (set_live (<[h := obj']> (live σ)) σ))
        | None => (Fault, σ)
        end
    | None => (Fault, σ)
    end.

Definition call_ReadTextFile (path : string) : M (Status * string) :=
  fun σ =>
    let '(st, contents) := ReadTextFile E path in
    (Ok (st, contents), log (EvReadTextFile path st) σ).

Definition call_Init (b : OnnxBackend) (path : string)
  (model_config : ModelConfig) (platform : string)
  : M (Status * OnnxBackend) :=
  fun σ =>
    let st := OnnxBackend_Init E b path model_config platform in
    let b' :=
      if IsOk st
      then {| min_compute_capability_ := min_compute_capability_ b;
              initialized_with := Some (path, model_config, platform);
              contexts_from := contexts_from b |}
      else b in
    (Ok (st, b'), log (EvBackendInit path platform st) σ).

Definition call_CreateExecutionContexts (b : OnnxBackend)
  (models : ArtifactMap) : M (Status * OnnxBackend) :=
  fun σ =>
    let st := OnnxBackend_CreateExecutionContexts E b models in
    let b' :=
      if IsOk st
      then {| min_compute_capability_ := min_compute_capability_ b;
              initialized_with := initialized_with b;
              contexts_from := Some models |}
      else b in
    (Ok (st, b'), log (EvCreateExecutionContexts models st) σ).

(** [*backend = std::move(local_backend)]. *)
Definition assign_backend (b : OnnxBackend) : M unit :=
  fun σ => (Ok tt, set_backend_out (Some b) σ).

Local Open Scope cpp_scope.

(** Body of the allocation loop over [s = 0 .. onnx_files.size() - 1]. *)
Definition allocate_body (s : nat) (local_onnx : list (option nat))
  : M (list (option nat)) :=
  let* p := make_shared_TemporaryDirectory "" in
  ret (<[s := p]> local_onnx).

(** The vector of [n] null pointers, then the allocation loop. *)
Definition allocate_local_onnx (n : nat) : M (list (option nat)) :=
  for_each (seq 0 n) allocate_body (replicate n None).

(** Body of the loop over [onnx_subdirs]; the loop state is [(i, models)]. *)
Definition localize_body (path : string) (local_onnx : list (option nat))
  (dirname : string) (acc : nat * ArtifactMap) : M (nat * ArtifactMap) :=
  let '(i, models) := acc in
  let onnx_path := JoinPath E [path; dirname] in
  let* p := vector_at local_onnx i in
  let* st := call_LocalizeFileFolder onnx_path p in
  RETURN_IF_ERROR st ;;
  let* local_path := deref_model_path p in
  ret (S i, emplace dirname (false, local_path) models).

Definition localize_subdirs (path : string) (local_onnx : list (option nat))
  (onnx_subdirs : list string) (models : ArtifactMap)
  : M (nat * ArtifactMap) :=
  for_each onnx_subdirs (localize_body path local_onnx) (0, models).

(** Body of the loop over [onnx_files]. *)
Definition read_body (path : string) (filename : string)
  (models : ArtifactMap) : M ArtifactMap :=
  let onnx_path := JoinPath E [path; filename] in
  let* (st, model_data_str) := call_ReadTextFile onnx_path in
  RETURN_IF_ERROR st ;;
  ret (emplace filename (true, model_data_str) models).

Definition read_files (path : string) (onnx_files : list string)
  (models : ArtifactMap) : M ArtifactMap :=
  for_each onnx_files (read_body path) models.

(** [OnnxBackendFactory::CreateBackend].  The vector [local_onnx] is
    destroyed when the function is left after its construction; the
    allocation loop itself has no exit.  The destructor of [local_backend]
    on an error path has no effect that is observed here. *)
Definition CreateBackend (path : string) (model_config : ModelConfig)
  (min_compute_capability : double) : State -> Outcome * State :=
  function_body (
    let* (st, onnx_files) := call_GetDirectoryFiles path true [] in
    RETURN_IF_ERROR st ;;
    let* (st, onnx_subdirs) := call_GetDirectorySubdirs path [] in
    RETURN_IF_ERROR st ;;
    let models : ArtifactMap := ∅ in
    let* local_onnx := allocate_local_onnx (length onnx_files) in
    at_scope_exit (destroy_vector local_onnx) (
      let* (i, models) :=
        localize_subdirs path local_onnx onnx_subdirs models in
      let* models := read_files path onnx_files models in
      let local_backend := new_OnnxBackend min_compute_capability in
      let* (st, local_backend) :=
         call_Init local_backend path model_config
           (kOnnxRuntimeOnnxPlatform E) in
      RETURN_IF_ERROR st ;;
      let* (st, local_backend) :=
         call_CreateExecutionContexts local_backend models in
      RETURN_IF_ERROR st ;;
      assign_backend local_backend ;;
      ret Success)).

(** [OnnxLoader::Stop()]. *)
Definition OnnxLoader_Stop (σ : State) : State := log EvLoaderStop σ.

(** [OnnxBackendFactory::~OnnxBackendFactory]. *)
Definition destroy_OnnxBackendFactory (f : OnnxBackendFactory) (σ : State)
  : State := OnnxLoader_Stop σ.

(** Destructor of a [std::unique_ptr<OnnxBackendFactory>]. *)
Definition destroy_unique_factory (p : option OnnxBackendFactory)
  (σ : State) : State :=
  match p with
  | Some f => destroy_OnnxBackendFactory f σ
  | None => σ
  end.

Definition call_OnnxLoader_Init : M Status :=
  fun σ => (Ok (OnnxLoader_Init E), log (EvLoaderInit (OnnxLoader_Init E)) σ).

(** [*factory = std::move(local)]: the factory previously held by the
    destination, if any, is destroyed. *)
Definition assign_factory (f : OnnxBackendFactory) : M unit :=
  fun σ =>
    (Ok tt, destroy_unique_factory (factory_out σ)
              (set_factory_out (Some f) σ)).

(** [OnnxBackendFactory::Create] (the verbose log line is left out).
    [local] owns the new factory until it is moved into [*factory]; a return
    before the move destroys it, and after the move [local] is null, so its
    destructor does nothing. *)
Definition Create (backend_config : BackendConfig)
  : State -> Outcome * State :=
  function_body (
    let onnxruntime_backend_config :=
      static_pointer_cast_Config backend_config in
    let local := mkFactory onnxruntime_backend_config in
    on_early_return (destroy_unique_factory (Some local)) (
      let* st := call_OnnxLoader_Init in
      RETURN_IF_ERROR st ;;
      assign_factory local ;;
      ret Success)).

End Factory.

(** ** A model directory *)

(** Modelled from the spec: the layout the filesystem collaborators of
    [src/core/filesystem.h] (not part of the sources) work on.  A model
    directory holds named entries, each a regular file with its bytes or a
    subdirectory; names are unique. *)
Inductive DirEntry : Type :=
| RegularFile (contents : string)
| Subdirectory.

(** Modelled from the spec: the platform's hidden-entry marker, which is
    tested inside the missing enumeration functions: a leading dot, as for
    [.DS_Store]. *)
Definition is_hidden (name : string) : bool :=
  match name with
  | String "."%char _ => true
  | _ => false
  end.

(** Modelled from the spec: the names [GetDirectoryFiles] reports, the
    regular files directly under the directory, hidden ones skipped when
    [skip_hidden_files] is set. *)
Definition dir_files (skip_hidden_files : bool) (d : gmap string DirEntry)
  : list string :=
  omap (fun ne : string * DirEntry =>
          match ne.2 with
          | RegularFile _ =>
              if skip_hidden_files && is_hidden ne.1 then None else Some ne.1
          | Subdirectory => None
          end) (map_to_list d).

(** Modelled from the spec: the names [GetDirectorySubdirs] reports, the
    immediate subdirectories.  The function takes no option; hidden entries
    are excluded from the artifact set, so a hidden subdirectory is not
    reported. *)
Definition dir_subdirs (d : gmap string DirEntry) : list string :=
  omap (fun ne : string * DirEntry =>
          match ne.2 with
          | RegularFile _ => None
          | Subdirectory => if is_hidden ne.1 then None else Some ne.1
          end) (map_to_list d).

Fixpoint strip_prefix (p s : string) : option string :=
  match p with
  | EmptyString => Some s
  | String a p' =>
      match s with
      | EmptyString => None
      | String b s' => if Ascii.eqb a b then strip_prefix p' s' else None
      end
  end.

(** Modelled from the spec: the filesystem collaborators
    ([GetDirectoryFiles], [GetDirectorySubdirs], [JoinPath], [ReadTextFile])
    for the model directory [d] stored at [root]; the other collaborators
    are those of [base].  [JoinPath] joins with a slash, and [ReadTextFile]
    yields the bytes of the file as stored. *)
Definition env_of_dir (root : string) (d : gmap string DirEntry) (base : Env)
  : Env :=
  {| GetDirectoryFiles p skip :=
       if String.eqb p root then (Success, dir_files skip d)
       else (Error EnumerationError p, []);
     GetDirectorySubdirs p :=
       if String.eqb p root then (Success, dir_subdirs d)
       else (Error EnumerationError p, []);
     JoinPath segments := String.concat "/" segments;
     TemporaryDirectory_ctor := TemporaryDirectory_ctor base;
     LocalizeFileFolder := LocalizeFileFolder base;
     ReadTextFile p :=
       match strip_prefix (root ++ "/") p with
       | Some name =>
           match d !! name with
           | Some (RegularFile contents) => (Success, contents)
           | _ => (Error ReadError p, "")
           end
       | None => (Error ReadError p, "")
       end;
     kOnnxRuntimeOnnxPlatform := kOnnxRuntimeOnnxPlatform base;
     OnnxBackend_Init := OnnxBackend_Init base;
     OnnxBackend_CreateExecutionContexts :=
       OnnxBackend_CreateExecutionContexts base;
     OnnxLoader_Init := OnnxLoader_Init base |}.

(** ** Concrete inputs used by the examples *)

(** Collaborators that always succeed; a localized copy lives under
    [/tmp/<source path>]. *)
Definition ok_env : Env :=
  {| GetDirectoryFiles _ _ := (Success, []);
     GetDirectorySubdirs _ := (Success, []);
     JoinPath segments := String.concat "/" segments;
     TemporaryDirectory_ctor _ _ := {| model_path := "" |};
     LocalizeFileFolder p _ := (Success, {| model_path := "/tmp" ++ p |});
     ReadTextFile _ := (Success, "");
     kOnnxRuntimeOnnxPlatform := "onnxruntime_onnx";
     OnnxBackend_Init _ _ _ _ := Success;
     OnnxBackend_CreateExecutionContexts _ _ := Success;
     OnnxLoader_Init := Success |}.

Definition initial_state : State :=
  {| next_handle := 0;
     live := ∅;
     trace := [];
     backend_out := None;
     factory_out := None |}.

(** Ten bytes of binary data with a null byte in fourth position. *)
Definition model_bin_bytes : string :=
  String "008" (String "001" (String "018" (String "000"
  (String "255" (String "013" (String "010" (String "026"
  (String "127" (String "128" EmptyString))))))))).

Definition only_weights_dir : gmap string DirEntry :=
  {[ "weights" := Subdirectory ]}.

Definition model_bin_dir : gmap string DirEntry :=
  {[ "model.bin" := RegularFile model_bin_bytes ]}.

Definition mixed_dir : gmap string DirEntry :=
  <[ "weights" := Subdirectory ]>
    (<[ ".DS_Store" := RegularFile "x" ]>
       {[ "model.onnx" := RegularFile "onnx" ]}).


(** One model file and two bundles. *)
Definition one_file_two_bundles_dir : gmap string DirEntry :=
  <[ "adapters" := Subdirectory ]>
    (<[ "weights" := Subdirectory ]>
       {[ "model.onnx" := RegularFile "onnx" ]}).

(** More inputs: a configuration of another runtime, and collaborators
    whose loader, localization or backend initialisation fails. *)
Definition tensorrt_config : BackendConfig :=
  {| dynamic_type := OtherRuntimeConfig "tensorrt"; settings := "" |}.

Definition onnx_config : BackendConfig :=
  {| dynamic_type := OnnxRuntimeConfig; settings := "" |}.

Definition failing_loader_env : Env :=
  {| GetDirectoryFiles := GetDirectoryFiles ok_env;
     GetDirectorySubdirs := GetDirectorySubdirs ok_env;
     JoinPath := JoinPath ok_env;
     TemporaryDirectory_ctor := TemporaryDirectory_ctor ok_env;
     LocalizeFileFolder := LocalizeFileFolder ok_env;
     ReadTextFile := ReadTextFile ok_env;
     kOnnxRuntimeOnnxPlatform := kOnnxRuntimeOnnxPlatform ok_env;
     OnnxBackend_Init := OnnxBackend_Init ok_env;
     OnnxBackend_CreateExecutionContexts :=
       OnnxBackend_CreateExecutionContexts ok_env;
     OnnxLoader_Init := Error InitializationError "libonnxruntime missing" |}.

Definition files_only_dir : gmap string DirEntry :=
  <[ "config.pbtxt" := RegularFile "name: m" ]>
    {[ "model.onnx" := RegularFile "onnx" ]}.

Definition hidden_only_dir : gmap string DirEntry :=
  {[ ".DS_Store" := RegularFile "x" ]}.

(** ** Observations on traces *)

(** The status a fallible step ended with. *)
Definition ev_status (ev : Event) : option Status :=
  match ev with
  | EvGetDirectoryFiles _ _ st => Some st
  | EvGetDirectorySubdirs _ st => Some st
  | EvLocalizeFileFolder _ _ st => Some st
  | EvReadTextFile _ st => Some st
  | EvBackendInit _ _ st => Some st
  | EvCreateExecutionContexts _ st => Some st
  | EvLoaderInit st => Some st
  | EvNewTemporaryDirectory _ => None
  | EvDeleteTemporaryDirectory _ => None
  | EvLoaderStop => None
  end.

Definition ev_allocation (ev : Event) : option nat :=
  match ev with
  | EvNewTemporaryDirectory h => Some h
  | _ => None
  end.

Definition ev_release (ev : Event) : option nat :=
  match ev with
  | EvDeleteTemporaryDirectory h => Some h
  | _ => None
  end.

Definition ev_localization (ev : Event) : option nat :=
  match ev with
  | EvLocalizeFileFolder _ h _ => Some h
  | _ => None
  end.

Definition ev_artifact_map (ev : Event) : option ArtifactMap :=
  match ev with
  | EvCreateExecutionContexts models _ => Some models
  | _ => None
  end.

(** Statuses of the steps of a trace, in order. *)
Definition statuses (t : list Event) : list Status := omap ev_status t.

(** Temporary directories allocated, released and localized into. *)
Definition allocations (t : list Event) : list nat := omap ev_allocation t.
Definition releases (t : list Event) : list nat := omap ev_release t.
Definition localizations (t : list Event) : list nat :=
  omap ev_localization t.

(** Artifact maps handed to [CreateExecutionContexts]. *)
Definition artifact_maps (t : list Event) : list ArtifactMap :=
  omap ev_artifact_map t.

(** What was appended to the trace between two states. *)
Definition emitted (σ σ' : State) : list Event :=
  drop (length (trace σ)) (trace σ').

(** Events of a run of successful localizations, the k-th subdirectory
    going to the k-th store. *)
Definition localize_events (E : Env) (path : string) (dirs : list string)
  (hs : list nat) : list Event :=
  zip_with
    (fun d h => EvLocalizeFileFolder (JoinPath E [path; d]) h Success)
    dirs hs.

Definition read_events (E : Env) (path : string) (files : list string)
  : list Event :=
  map (fun f => EvReadTextFile (JoinPath E [path; f]) Success) files.

Definition new_events (hs : list nat) : list Event :=
  map EvNewTemporaryDirectory hs.

Definition delete_events (hs : list nat) : list Event :=
  map EvDeleteTemporaryDirectory hs.

(** What the loops leave untouched. *)
Definition frame (σ σ' : State) : Prop :=
  next_handle σ' = next_handle σ /\
  backend_out σ' = backend_out σ /\
  factory_out σ' = factory_out σ /\
  (forall h, is_Some (live σ !! h) -> is_Some (live σ' !! h)).

(** How the loop over the subdirectories extends the map. *)
Definition localized_into (dirs : list string) (m m' : ArtifactMap) : Prop :=
  (forall k v, m !! k = Some v -> m' !! k = Some v) /\
  (forall d, d ∈ dirs -> is_Some (m' !! d)) /\
  (forall k v, m' !! k = Some v ->
               m !! k = Some v \/ (k ∈ dirs /\ v.1 = false)).

(** How the loop over the files extends the map. *)
Definition read_into (E : Env) (path : string) (files : list string)
  (m m' : ArtifactMap) : Prop :=
  (forall k v, m !! k = Some v -> m' !! k = Some v) /\
  (forall f, f ∈ files -> m !! f = None ->
             m' !! f
             = Some (Inline (ReadTextFile E (JoinPath E [path; f])).2)) /\
  (forall k v, m' !! k = Some v -> m !! k = Some v \/ k ∈ files).

(** ** The exits of [CreateBackend]

    The ways a call leaves the function, with the events it emits and the
    value it leaves in [*backend].  [CreateBackend_exits] below shows that
    every call takes one of them. *)
Section Exits.

Variable E : Env.
Variable path : string.
Variable model_config : ModelConfig.
Variable min_compute_capability : double.
Variable σ : State.

(** The map holds every enumerated name once: subdirectories as localized
    paths, files as their contents, and nothing else. *)
Definition resolved (fl sl : list string) (m : ArtifactMap) : Prop :=
  (forall d, d ∈ sl -> exists p, m !! d = Some (Localized p)) /\
  (forall f, f ∈ fl -> f ∉ sl ->
             m !! f
             = Some (Inline (ReadTextFile E (JoinPath E [path; f])).2)) /\
  (forall k, is_Some (m !! k) -> k ∈ sl \/ k ∈ fl).

Definition scan_events : list Event :=
  [EvGetDirectoryFiles path true Success;
   EvGetDirectorySubdirs path Success].

Definition initialized_backend : OnnxBackend :=
  {| min_compute_capability_ := min_compute_capability;
     initialized_with :=
       Some (path, model_config, kOnnxRuntimeOnnxPlatform E);
     contexts_from := None |}.

Definition constructed_backend (m : ArtifactMap) : OnnxBackend :=
  {| min_compute_capability_ := min_compute_capability;
     initialized_with :=
       Some (path, model_config, kOnnxRuntimeOnnxPlatform E);
     contexts_from := Some m |}.

Definition init_status : Status :=
  OnnxBackend_Init E (new_OnnxBackend min_compute_capability) path
    model_config (kOnnxRuntimeOnnxPlatform E).

Definition init_event (st : Status) : Event :=
  EvBackendInit path (kOnnxRuntimeOnnxPlatform E) st.

(** Both enumerations succeeded: the two sets and the stores allocated. *)
Record scanned (fl sl : list string) (hs : list nat) : Prop := mkScanned {
  scanned_files :
    exists fnames, GetDirectoryFiles E path true = (Success, fnames) /\
                   fl = set_insert_all fnames [];
  scanned_subdirs :
    exists dnames, GetDirectorySubdirs E path = (Success, dnames) /\
                   sl = set_insert_all dnames [];
  scanned_stores : hs = seq (next_handle σ) (length fl)
}.

(** The stores of the call are gone and [*backend] is as it was. *)
Definition abandoned (hs : list nat) (σ' : State) : Prop :=
  backend_out σ' = backend_out σ /\
  (forall h, h ∈ hs -> live σ' !! h = None).

Inductive exit : Outcome -> list Event -> State -> Prop :=
| exit_enumerate_files st fnames σ' :
    GetDirectoryFiles E path true = (st, fnames) ->
    IsOk st = false ->
    abandoned [] σ' ->
    exit (Returned st) [EvGetDirectoryFiles path true st] σ'
| exit_enumerate_subdirs fnames st dnames σ' :
    GetDirectoryFiles E path true = (Success, fnames) ->
    GetDirectorySubdirs E path = (st, dnames) ->
    IsOk st = false ->
    abandoned [] σ' ->
    exit (Returned st)
      [EvGetDirectoryFiles path true Success; EvGetDirectorySubdirs path st]
      σ'
| exit_out_of_range fl sl hs σ' :
    scanned fl sl hs ->
    length fl < length sl ->
    backend_out σ' = backend_out σ ->
    exit UndefinedBehaviour
      (scan_events ++ new_events hs ++ localize_events E path sl hs)
      σ'
| exit_localize fl sl hs pre d post h st σ' :
    scanned fl sl hs ->
    sl = pre ++ d :: post ->
    hs !! length pre = Some h ->
    IsOk st = false ->
    abandoned hs σ' ->
    exit (Returned st)
      (scan_events ++ new_events hs ++ localize_events E path pre hs
         ++ [EvLocalizeFileFolder (JoinPath E [path; d]) h st]
         ++ delete_events hs)
      σ'
| exit_read fl sl hs pre f post st σ' :
    scanned fl sl hs ->
    length sl <= length fl ->
    fl = pre ++ f :: post ->
    IsOk st = false ->
    abandoned hs σ' ->
    exit (Returned st)
      (scan_events ++ new_events hs ++ localize_events E path sl hs
         ++ read_events E path pre
         ++ [EvReadTextFile (JoinPath E [path; f]) st]
         ++ delete_events hs)
      σ'
| exit_init fl sl hs σ' :
    scanned fl sl hs ->
    length sl <= length fl ->
    IsOk init_status = false ->
    abandoned hs σ' ->
    exit (Returned init_status)
      (scan_events ++ new_events hs ++ localize_events E path sl hs
         ++ read_events E path fl
         ++ [init_event init_status]
         ++ delete_events hs)
      σ'
| exit_contexts fl sl hs m st σ' :
    scanned fl sl hs ->
    length sl <= length fl ->
    resolved fl sl m ->
    init_status = Success ->
    OnnxBackend_CreateExecutionContexts E initialized_backend m = st ->
    IsOk st = false ->
    abandoned hs σ' ->
    exit (Returned st)
      (scan_events ++ new_events hs ++ localize_events E path sl hs
         ++ read_events E path fl
         ++ [init_event Success; EvCreateExecutionContexts m st]
         ++ delete_events hs)
      σ'
| exit_success fl sl hs m σ' :
    scanned fl sl hs ->
    length sl <= length fl ->
    resolved fl sl m ->
    init_status = Success ->
    OnnxBackend_CreateExecutionContexts E initialized_backend m = Success ->
    backend_out σ' = Some (constructed_backend m) ->
    (forall h, h ∈ hs -> live σ' !! h = None) ->
    exit (Returned Success)
      (scan_events ++ new_events hs ++ localize_events E path sl hs
         ++ read_events E path fl
         ++ [init_event Success; EvCreateExecutionContexts m Success]
         ++ delete_events hs)
      σ'.

End Exits.

(** ** Further observations and reference functions *)

(** Source path and store of each localization, in order. *)
Definition ev_localized (ev : Event) : option (string * nat) :=
  match ev with
  | EvLocalizeFileFolder p h _ => Some (p, h)
  | _ => None
  end.

Definition localized (t : list Event) : list (string * nat) :=
  omap ev_localized t.

(** Path of each file read, in order. *)
Definition ev_read (ev : Event) : option string :=
  match ev with
  | EvReadTextFile p _ => Some p
  | _ => None
  end.

Definition reads (t : list Event) : list string := omap ev_read t.

Definition is_loader_event (ev : Event) : bool :=
  match ev with
  | EvLoaderInit _ | EvLoaderStop => true
  | _ => false
  end.

(** Every live temporary directory was handed out by the allocator. *)
Definition allocator_ahead (σ : State) : Prop :=
  forall h, is_Some (live σ !! h) -> h < next_handle σ.

(** What a step leaves untouched outside the stores [hs]. *)
Definition kept (hs : list nat) (σ σ' : State) : Prop :=
  factory_out σ' = factory_out σ /\
  next_handle σ' = next_handle σ /\
  (forall h, h ∉ hs -> live σ' !! h = live σ !! h).

(** The path recorded for subdirectory [d] localized into a fresh store
    [h]: the [model_path] the store has after [LocalizeFileFolder]. *)
Definition localized_path (E : Env) (path : string) (d : string) (h : nat)
  : string :=
  model_path
    (LocalizeFileFolder E (JoinPath E [path; d])
       (TemporaryDirectory_ctor E h "")).2.

(** The map the loop over the subdirectories builds when every
    localization succeeds, written as a plain recursion. *)
Fixpoint localized_map (E : Env) (path : string) (dirs : list string)
  (hs : list nat) (m : ArtifactMap) : ArtifactMap :=
  match dirs, hs with
  | d :: dirs', h :: hs' =>
      localized_map E path dirs' hs'
        (emplace d (false, localized_path E path d h) m)
  | _, _ => m
  end.

(** The map the loop over the files builds when every read succeeds. *)
Fixpoint read_map (E : Env) (path : string) (files : list string)
  (m : ArtifactMap) : ArtifactMap :=
  match files with
  | [] => m
  | f :: files' =>
      read_map E path files'
        (emplace f (true, (ReadTextFile E (JoinPath E [path; f])).2) m)
  end.

(** Collaborators that report the name [model] both as a regular file and
    as a subdirectory. *)
Definition colliding_env : Env :=
  {| GetDirectoryFiles _ _ := (Success, ["model"]);
     GetDirectorySubdirs _ := (Success, ["model"]);
     JoinPath := JoinPath ok_env;
     TemporaryDirectory_ctor := TemporaryDirectory_ctor ok_env;
     LocalizeFileFolder := LocalizeFileFolder ok_env;
     ReadTextFile _ := (Success, "bytes");
     kOnnxRuntimeOnnxPlatform := kOnnxRuntimeOnnxPlatform ok_env;
     OnnxBackend_Init := OnnxBackend_Init ok_env;
     OnnxBackend_CreateExecutionContexts :=
       OnnxBackend_CreateExecutionContexts ok_env;
     OnnxLoader_Init := OnnxLoader_Init ok_env |}.

(** A state in which another call holds a live temporary directory. *)
Definition busy_state : State :=
  {| next_handle := 1;
     live := {[ 0 := {| model_path := "/tmp/other/weights" |} ]};
     trace := [];
     backend_out := None;
     factory_out := None |}.

(** A model directory with two files and two subdirectory bundles. *)
Definition two_bundles_dir : gmap string DirEntry :=
  <[ "weights" := Subdirectory ]>
    (<[ "adapters" := Subdirectory ]>
       (<[ "model.onnx" := RegularFile "onnx" ]>
          {[ "config.pbtxt" := RegularFile "name: m" ]})).

(** * Properties *)

(** ** Ordered sets of strings *)

Lemma compare_Gt_lt (x y : string) :
  String.compare x y = Gt -> String_as_OT.lt y x.
Proof.
  intros Hc. apply String_as_OT.cmp_lt. unfold String_as_OT.cmp.
  rewrite String.compare_antisym, Hc. reflexivity.
Qed.

Lemma set_insert_elem (x z : string) (s : list string) :
  z ∈ set_insert x s <-> z = x \/ z ∈ s.
Proof.
  induction s as [|y s IH]; simpl.
  - rewrite list_elem_of_singleton, elem_of_nil. tauto.
  - destruct (String.compare x y) eqn:Hc.
    + apply String.compare_eq_iff in Hc. subst y.
      rewrite elem_of_cons. tauto.
    + rewrite !elem_of_cons. tauto.
    + rewrite !elem_of_cons, IH. tauto.
Qed.

Lemma set_insert_sorted (x : string) (s : list string) :
  StronglySorted String_as_OT.lt s ->
  StronglySorted String_as_OT.lt (set_insert x s).
Proof.
  induction 1 as [|y s Hs IH Hy]; simpl.
  - repeat constructor.
  - destruct (String.compare x y) eqn:Hc.
    + constructor; assumption.
    + apply String_as_OT.cmp_lt in Hc.
      constructor; [constructor; assumption|].
      constructor; [assumption|].
      eapply Forall_impl; [exact Hy|].
      intros z Hz. eapply String_as_OT.lt_trans; eassumption.
    + constructor; [assumption|].
      apply Forall_forall. intros z Hz.
      apply set_insert_elem in Hz as [->|Hz].
      * apply compare_Gt_lt; assumption.
      * rewrite Forall_forall in Hy. apply Hy; assumption.
Qed.

Lemma sorted_NoDup (s : list string) :
  StronglySorted String_as_OT.lt s -> NoDup s.
Proof.
  induction 1 as [|y s Hs IH Hy]; constructor; [|assumption].
  intros Hin. rewrite Forall_forall in Hy.
  apply (String_as_OT.lt_not_eq _ _ (Hy _ Hin)). reflexivity.
Qed.

Lemma set_insert_all_elem (names : list string) (z : string) :
  z ∈ set_insert_all names [] <-> z ∈ names.
Proof.
  induction names as [|x names IH]; simpl; [reflexivity|].
  rewrite set_insert_elem, IH, elem_of_cons. tauto.
Qed.

Lemma set_insert_all_sorted (names : list string) :
  StronglySorted String_as_OT.lt (set_insert_all names []).
Proof.
  induction names as [|x names IH]; simpl.
  - constructor.
  - apply set_insert_sorted; assumption.
Qed.

Lemma set_insert_all_NoDup (names : list string) :
  NoDup (set_insert_all names []).
Proof. apply sorted_NoDup, set_insert_all_sorted. Qed.

(** ** [emplace] *)

Lemma emplace_lookup_same (k : string) (v : bool * string) (m : ArtifactMap) :
  m !! k = None -> emplace k v m !! k = Some v.
Proof. intros H. unfold emplace. rewrite H. apply lookup_insert_eq. Qed.

Lemma emplace_keeps (k k' : string) (v v' : bool * string) (m : ArtifactMap) :
  m !! k' = Some v' -> emplace k v m !! k' = Some v'.
Proof.
  intros H. unfold emplace. destruct (m !! k) eqn:Hk; [assumption|].
  rewrite lookup_insert_ne; [assumption|]. congruence.
Qed.

Lemma emplace_is_Some (k : string) (v : bool * string) (m : ArtifactMap) :
  is_Some (emplace k v m !! k).
Proof.
  unfold emplace. destruct (m !! k) eqn:Hk.
  - rewrite Hk. eauto.
  - rewrite lookup_insert_eq. eauto.
Qed.

Lemma emplace_lookup_inv (k k' : string) (v v' : bool * string)
  (m : ArtifactMap) :
  emplace k v m !! k' = Some v' ->
  m !! k' = Some v' \/ (k' = k /\ v' = v /\ m !! k = None).
Proof.
  unfold emplace. destruct (m !! k) eqn:Hk; [tauto|].
  destruct (decide (k = k')) as [->|Hne].
  - rewrite lookup_insert_eq. intros [= ->]. tauto.
  - rewrite lookup_insert_ne by assumption. tauto.
Qed.

(** ** Traces *)

Lemma emitted_app (σ σ' : State) (t : list Event) :
  trace σ' = trace σ ++ t -> emitted σ σ' = t.
Proof. intros H. unfold emitted. rewrite H. apply drop_app_length. Qed.

Lemma statuses_app (t1 t2 : list Event) :
  statuses (t1 ++ t2) = statuses t1 ++ statuses t2.
Proof. apply omap_app. Qed.

Lemma allocations_app (t1 t2 : list Event) :
  allocations (t1 ++ t2) = allocations t1 ++ allocations t2.
Proof. apply omap_app. Qed.

Lemma releases_app (t1 t2 : list Event) :
  releases (t1 ++ t2) = releases t1 ++ releases t2.
Proof. apply omap_app. Qed.

Lemma localizations_app (t1 t2 : list Event) :
  localizations (t1 ++ t2) = localizations t1 ++ localizations t2.
Proof. apply omap_app. Qed.

Lemma artifact_maps_app (t1 t2 : list Event) :
  artifact_maps (t1 ++ t2) = artifact_maps t1 ++ artifact_maps t2.
Proof. apply omap_app. Qed.

(** ** The loops of [CreateBackend] *)

Section Loops.

Variable E : Env.
Variable path : string.

Lemma frame_refl (σ : State) : frame σ σ.
Proof. unfold frame. auto. Qed.

Lemma frame_trans (σ1 σ2 σ3 : State) :
  frame σ1 σ2 -> frame σ2 σ3 -> frame σ1 σ3.
Proof.
  unfold frame. intros (?&?&?&?) (?&?&?&?).
  repeat split; try congruence; auto.
Qed.

Lemma allocate_loop (n : nat) :
  forall (k : nat) (done : list nat) (σ : State),
    length done = k ->
    exists σ',
      for_each (seq k n) (allocate_body E)
        (map Some done ++ replicate n None) σ
      = (Ok (map Some (done ++ seq (next_handle σ) n)), σ') /\
      trace σ' = trace σ ++ new_events (seq (next_handle σ) n) /\
      next_handle σ' = next_handle σ + n /\
      backend_out σ' = backend_out σ /\
      factory_out σ' = factory_out σ /\
      (forall h, is_Some (live σ !! h) -> is_Some (live σ' !! h)) /\
      (forall h, h ∈ seq (next_handle σ) n -> is_Some (live σ' !! h)).
Proof.
  induction n as [|n IH]; intros k done σ Hk.
  - exists σ. simpl. rewrite !app_nil_r, Nat.add_0_r.
    repeat split; auto. intros h Hh. inversion Hh.
  - simpl seq. simpl replicate. simpl for_each.
    unfold bind at 1. unfold allocate_body at 1.
    unfold bind at 1. unfold make_shared_TemporaryDirectory at 1.
    unfold ret at 1.
    set (h := next_handle σ).
    set (σ1 := log (EvNewTemporaryDirectory h)
                 (set_live (<[h:=TemporaryDirectory_ctor E h ""]> (live σ))
                    (set_next_handle (S h) σ))).
    assert (Hins : <[k:=Some h]> (map Some done ++ None :: replicate n None)
                   = map Some (done ++ [h]) ++ replicate n None).
    { rewrite insert_app_r_alt by (rewrite length_map; lia).
      rewrite length_map, Hk, Nat.sub_diag. simpl.
      rewrite map_app, <- app_assoc. reflexivity. }
    rewrite Hins.
    destruct (IH (S k) (done ++ [h]) σ1) as (σ' & Hrun & Htr & Hnh & Hb & Hf & Hl1 & Hl2).
    { rewrite length_app. simpl. lia. }
    exists σ'. rewrite Hrun. simpl in Htr, Hnh, Hb, Hf.
    repeat split.
    + rewrite <- app_assoc. reflexivity.
    + rewrite Htr, <- app_assoc. reflexivity.
    + rewrite Hnh. unfold h. lia.
    + assumption.
    + assumption.
    + intros h' Hh'. apply Hl1. simpl.
      destruct (decide (h = h')) as [->|Hne].
      * rewrite lookup_insert_eq. eauto.
      * rewrite lookup_insert_ne by assumption. assumption.
    + intros h' Hh'. apply elem_of_cons in Hh' as [->|Hh'].
      * apply Hl1. simpl. rewrite lookup_insert_eq. eauto.
      * apply Hl2. exact Hh'.
Qed.

Lemma allocate_local_onnx_run (n : nat) (σ : State) :
  exists σ',
    allocate_local_onnx E n σ = (Ok (map Some (seq (next_handle σ) n)), σ') /\
    trace σ' = trace σ ++ new_events (seq (next_handle σ) n) /\
    backend_out σ' = backend_out σ /\
    (forall h, h ∈ seq (next_handle σ) n -> is_Some (live σ' !! h)).
Proof.
  destruct (allocate_loop n 0 [] σ eq_refl)
    as (σ' & Hrun & Htr & _ & Hb & _ & _ & Hl).
  exists σ'. repeat split; assumption.
Qed.

Lemma destroy_vector_run (hs : list nat) :
  forall σ : State,
    trace (destroy_vector (map Some hs) σ) = trace σ ++ delete_events hs /\
    backend_out (destroy_vector (map Some hs) σ) = backend_out σ /\
    (forall h, h ∈ hs -> live (destroy_vector (map Some hs) σ) !! h = None) /\
    (forall h, live σ !! h = None ->
               live (destroy_vector (map Some hs) σ) !! h = None).
Proof.
  induction hs as [|h hs IH]; intros σ; simpl.
  - rewrite app_nil_r. repeat split; auto. intros h Hh. inversion Hh.
  - destruct (IH (release h σ)) as (Htr & Hb & Hl1 & Hl2).
    unfold destroy_vector in *. repeat split.
    + rewrite Htr. simpl. rewrite <- app_assoc. reflexivity.
    + rewrite Hb. reflexivity.
    + intros h' Hh'. apply elem_of_cons in Hh' as [->|Hh'].
      * apply Hl2. simpl. apply lookup_delete_eq.
      * apply Hl1. assumption.
    + intros h' Hh'. apply Hl2. simpl.
      destruct (decide (h = h')) as [->|Hne].
      * apply lookup_delete_eq.
      * rewrite lookup_delete_ne by assumption. assumption.
Qed.

Lemma for_each_cons {A S} (x : A) (l : list A) (body : A -> S -> M S)
  (acc : S) (σ : State) :
  for_each (x :: l) body acc σ
  = match body x acc σ with
    | (Ok acc', σ') => for_each l body acc' σ'
    | (Ret st, σ') => (Ret st, σ')
    | (Fault, σ') => (Fault, σ')
    end.
Proof. reflexivity. Qed.

(** One iteration of the loop over the subdirectories. *)
Lemma localize_body_run (local_onnx : list (option nat)) (d : string)
  (i : nat) (m : ArtifactMap) (σ : State) :
  localize_body E path local_onnx d (i, m) σ
  = match local_onnx !! i with
    | Some (Some h) =>
        match live σ !! h with
        | Some obj =>
            let r := LocalizeFileFolder E (JoinPath E [path; d]) obj in
            let σ1 := log (EvLocalizeFileFolder (JoinPath E [path; d]) h r.1)
                        (set_live (<[h := r.2]> (live σ)) σ) in
            if IsOk r.1
            then (Ok (S i, emplace d (false, model_path r.2) m), σ1)
            else (Ret r.1, σ1)
        | None => (Fault, σ)
        end
    | _ => (Fault, σ)
    end.
Proof.
  unfold localize_body, bind, vector_at.
  destruct (local_onnx !! i) as [[h|]|]; try reflexivity.
  unfold ret at 1. unfold call_LocalizeFileFolder.
  destruct (live σ !! h) as [obj|]; [|reflexivity].
  destruct (LocalizeFileFolder E (JoinPath E [path; d]) obj) as [st obj'].
  unfold RETURN_IF_ERROR. simpl.
  destruct (IsOk st); [|reflexivity].
  cbn [live log set_live]. rewrite lookup_insert_eq. reflexivity.
Qed.

(** One iteration of the loop over the files. *)
Lemma read_body_run (f : string) (m : ArtifactMap) (σ : State) :
  read_body E path f m σ
  = let r := ReadTextFile E (JoinPath E [path; f]) in
    let σ1 := log (EvReadTextFile (JoinPath E [path; f]) r.1) σ in
    if IsOk r.1
    then (Ok (emplace f (true, r.2) m), σ1)
    else (Ret r.1, σ1).
Proof.
  unfold read_body, bind, call_ReadTextFile.
  destruct (ReadTextFile E (JoinPath E [path; f])) as [st contents].
  unfold RETURN_IF_ERROR. simpl. destruct (IsOk st); reflexivity.
Qed.

Lemma localize_loop (local_onnx : list (option nat)) (dirs : list string) :
  forall (done hs : list nat) (i : nat) (m : ArtifactMap) (σ : State),
    local_onnx = map Some (done ++ hs) -> length done = i ->
    (forall h, h ∈ hs -> is_Some (live σ !! h)) ->
    match for_each dirs (localize_body E path local_onnx) (i, m) σ with
    | (Ok (i', m'), σ') =>
        length dirs <= length hs /\
        trace σ' = trace σ ++ localize_events E path dirs hs /\
        localized_into dirs m m' /\ frame σ σ'
    | (Ret st, σ') =>
        IsOk st = false /\ frame σ σ' /\
        exists pre d post h,
          dirs = pre ++ d :: post /\ hs !! length pre = Some h /\
          trace σ' = trace σ ++ localize_events E path pre hs
                       ++ [EvLocalizeFileFolder (JoinPath E [path; d]) h st]
    | (Fault, σ') =>
        length hs < length dirs /\ frame σ σ' /\
        trace σ' = trace σ ++ localize_events E path dirs hs
    end.
Proof.
  induction dirs as [|d dirs IH]; intros done hs i m σ Hv Hi Hlive.
  - simpl. unfold ret. split; [lia|]. split; [symmetry; apply app_nil_r|].
    split; [|apply frame_refl].
    split; [auto|]. split; [intros d Hd; inversion Hd|auto].
  - rewrite for_each_cons, localize_body_run.
    destruct hs as [|h hs].
    + assert (Hnone : local_onnx !! i = None).
      { apply lookup_ge_None. rewrite Hv, length_map, app_nil_r. lia. }
      rewrite Hnone. simpl.
      split; [lia|]. split; [apply frame_refl|]. symmetry. apply app_nil_r.
    + assert (Hsome : local_onnx !! i = Some (Some h)).
      { rewrite Hv, list_lookup_fmap, lookup_app_r by lia.
        rewrite Hi, Nat.sub_diag. reflexivity. }
      rewrite Hsome.
      destruct (Hlive h) as [obj Hobj]; [left|]. rewrite Hobj.
      destruct (LocalizeFileFolder E (JoinPath E [path; d]) obj)
        as [st obj'] eqn:Hloc.
      cbv zeta. cbn [fst snd].
      set (σ1 := log (EvLocalizeFileFolder (JoinPath E [path; d]) h st)
                   (set_live (<[h:=obj']> (live σ)) σ)).
      assert (Hframe1 : frame σ σ1).
      { unfold frame. simpl. repeat split; auto. intros h' Hh'.
        destruct (decide (h = h')) as [->|Hne].
        - rewrite lookup_insert_eq. eauto.
        - rewrite lookup_insert_ne by assumption. assumption. }
      destruct st as [|kind msg]; simpl IsOk; cbv iota.
      * assert (Hv' : local_onnx = map Some ((done ++ [h]) ++ hs)).
        { rewrite <- app_assoc. exact Hv. }
        assert (Hi' : length (done ++ [h]) = S i).
        { rewrite length_app. simpl. lia. }
        assert (Hlive' : forall h', h' ∈ hs -> is_Some (live σ1 !! h')).
        { intros h' Hh'. apply Hframe1, Hlive. right. exact Hh'. }
        specialize (IH (done ++ [h]) hs (S i)
                      (emplace d (false, model_path obj') m) σ1
                      Hv' Hi' Hlive').
        destruct (for_each dirs (localize_body E path local_onnx)
                    (S i, emplace d (false, model_path obj') m) σ1)
          as [[[i' m']|st'|] σ'].
        -- destruct IH as (Hlen & Htr & (Hm1 & Hm2 & Hm3) & Hfr).
           split; [simpl; lia|]. split.
           { rewrite Htr. simpl. rewrite <- app_assoc. reflexivity. }
           split; [|eapply frame_trans; eassumption].
           split; [|split].
           ++ intros k v Hk. apply Hm1.
              apply emplace_keeps. exact Hk.
           ++ intros d' Hd'. apply elem_of_cons in Hd' as [->|Hd'].
              ** destruct (emplace_is_Some d (false, model_path obj') m)
                   as [v Hv'']. exists v. apply Hm1. exact Hv''.
              ** apply Hm2. exact Hd'.
           ++ intros k v Hk. apply Hm3 in Hk as [Hk|[Hk Hv'']].
              ** apply emplace_lookup_inv in Hk as [Hk|(-> & -> & _)].
                 --- left. exact Hk.
                 --- right. split; [left|reflexivity].
              ** right. split; [right; exact Hk|exact Hv''].
        -- destruct IH as (Hst & Hfr & pre & d' & post & h' & Hd & Hh & Htr).
           split; [exact Hst|]. split; [eapply frame_trans; eassumption|].
           exists (d :: pre), d', post, h'. split; [rewrite Hd; reflexivity|].
           split; [exact Hh|].
           rewrite Htr. simpl. rewrite <- !app_assoc. reflexivity.
        -- destruct IH as (Hlen & Hfr & Htr).
           split; [simpl; lia|]. split; [eapply frame_trans; eassumption|].
           rewrite Htr. simpl. rewrite <- app_assoc. reflexivity.
      * split; [reflexivity|]. split; [exact Hframe1|].
        exists [], d, dirs, h. split; [reflexivity|]. split; [reflexivity|].
        reflexivity.
Qed.

Lemma read_loop (files : list string) :
  forall (m : ArtifactMap) (σ : State),
    match for_each files (read_body E path) m σ with
    | (Ok m', σ') =>
        trace σ' = trace σ ++ read_events E path files /\
        read_into E path files m m' /\ frame σ σ'
    | (Ret st, σ') =>
        IsOk st = false /\ frame σ σ' /\
        exists pre f post,
          files = pre ++ f :: post /\
          trace σ' = trace σ ++ read_events E path pre
                       ++ [EvReadTextFile (JoinPath E [path; f]) st]
    | (Fault, σ') => False
    end.
Proof.
  induction files as [|f files IH]; intros m σ.
  - simpl. unfold ret. split; [symmetry; apply app_nil_r|].
    split; [|apply frame_refl].
    split; [auto|]. split; [intros f Hf; inversion Hf|auto].
  - rewrite for_each_cons, read_body_run.
    destruct (ReadTextFile E (JoinPath E [path; f])) as [st contents] eqn:Hrd.
    cbv zeta. cbn [fst snd].
    set (σ1 := log (EvReadTextFile (JoinPath E [path; f]) st) σ).
    assert (Hframe1 : frame σ σ1) by (unfold frame; simpl; auto).
    destruct st as [|kind msg]; simpl IsOk; cbv iota.
    + specialize (IH (emplace f (true, contents) m) σ1).
      destruct (for_each files (read_body E path)
                  (emplace f (true, contents) m) σ1) as [[m'|st'|] σ'].
      * destruct IH as (Htr & (Hm1 & Hm2 & Hm3) & Hfr).
        split.
        { rewrite Htr. simpl. rewrite <- app_assoc. reflexivity. }
        split; [|eapply frame_trans; eassumption].
        split; [|split].
        -- intros k v Hk. apply Hm1, emplace_keeps. exact Hk.
        -- intros f' Hf' Hnone.
           destruct (decide (f' = f)) as [->|Hne].
           ++ rewrite Hrd. apply Hm1, emplace_lookup_same. exact Hnone.
           ++ apply elem_of_cons in Hf' as [->|Hf']; [congruence|].
              apply Hm2; [exact Hf'|].
              unfold emplace. destruct (m !! f); [exact Hnone|].
              rewrite lookup_insert_ne by congruence. exact Hnone.
        -- intros k v Hk. apply Hm3 in Hk as [Hk|Hk].
           ++ apply emplace_lookup_inv in Hk as [Hk|(-> & _ & _)].
              ** left. exact Hk.
              ** right. left.
           ++ right. right. exact Hk.
      * destruct IH as (Hst & Hfr & pre & f' & post & Hf & Htr).
        split; [exact Hst|]. split; [eapply frame_trans; eassumption|].
        exists (f :: pre), f', post. split; [rewrite Hf; reflexivity|].
        rewrite Htr. simpl. rewrite <- !app_assoc. reflexivity.
      * exact IH.
    + split; [reflexivity|]. split; [exact Hframe1|].
      exists [], f, files. split; reflexivity.
Qed.

End Loops.

(** ** Every call takes one of the exits *)

Lemma bind_run {A B} (m : M A) (f : A -> M B) (σ : State) :
  bind m f σ
  = match m σ with
    | (Ok a, σ') => f a σ'
    | (Ret st, σ') => (Ret st, σ')
    | (Fault, σ') => (Fault, σ')
    end.
Proof. reflexivity. Qed.

Lemma resolved_of_loops (E : Env) (path : string) (fl sl : list string)
  (m1 m2 : ArtifactMap) :
  localized_into sl ∅ m1 -> read_into E path fl m1 m2 ->
  resolved E path fl sl m2.
Proof.
  intros (Hl1 & Hl2 & Hl3) (Hr1 & Hr2 & Hr3). split; [|split].
  - intros d Hd. destruct (Hl2 d Hd) as [[b p] Hv].
    destruct (Hl3 _ _ Hv) as [Hempty|[_ Hb]].
    + rewrite lookup_empty in Hempty. discriminate.
    + simpl in Hb. subst b. exists p. apply Hr1. exact Hv.
  - intros f Hf Hnot. apply Hr2; [exact Hf|].
    destruct (m1 !! f) as [v|] eqn:Hv; [|reflexivity].
    destruct (Hl3 _ _ Hv) as [Hempty|[Hin _]].
    + rewrite lookup_empty in Hempty. discriminate.
    + contradiction.
  - intros k [v Hv]. destruct (Hr3 _ _ Hv) as [Hv1|Hin].
    + destruct (Hl3 _ _ Hv1) as [Hempty|[Hin _]].
      * rewrite lookup_empty in Hempty. discriminate.
      * left. exact Hin.
    + right. exact Hin.
Qed.

Lemma construct_run (E : Env) (path : string) (model_config : ModelConfig)
  (mcc : double) (models : ArtifactMap) (σ : State) :
  (let* (st, local_backend) :=
     call_Init E (new_OnnxBackend mcc) path model_config
       (kOnnxRuntimeOnnxPlatform E) in
   RETURN_IF_ERROR st ;;
   let* (st, local_backend) :=
     call_CreateExecutionContexts E local_backend models in
   RETURN_IF_ERROR st ;;
   assign_backend local_backend ;;
   ret Success)%cpp σ
  = let σ1 st := log (init_event E path st) σ in
    match init_status E path model_config mcc with
    | Success =>
        let st :=
          OnnxBackend_CreateExecutionContexts E
            (initialized_backend E path model_config mcc) models in
        let σ2 := log (EvCreateExecutionContexts models st) (σ1 Success) in
        match st with
        | Success =>
            (Ok Success,
             set_backend_out
               (Some (constructed_backend E path model_config mcc models)) σ2)
        | Error _ _ => (Ret st, σ2)
        end
    | Error kind msg => (Ret (Error kind msg), σ1 (Error kind msg))
    end.
Proof.
  unfold bind, call_Init, call_CreateExecutionContexts, RETURN_IF_ERROR,
    assign_backend, ret, init_status, initialized_backend,
    constructed_backend, init_event.
  destruct (OnnxBackend_Init E (new_OnnxBackend mcc) path model_config
              (kOnnxRuntimeOnnxPlatform E)) as [|kind msg]; simpl;
    [|reflexivity].
  destruct (OnnxBackend_CreateExecutionContexts E _ models); reflexivity.
Qed.

Lemma CreateBackend_exits (E : Env) (path : string)
  (model_config : ModelConfig) (mcc : double) (σ σ' : State) (out : Outcome) :
  CreateBackend E path model_config mcc σ = (out, σ') ->
  exit E path model_config mcc σ out (emitted σ σ') σ'.
Proof.
  unfold CreateBackend, function_body.
  rewrite bind_run. unfold call_GetDirectoryFiles at 1.
  destruct (GetDirectoryFiles E path true) as [stf fnames] eqn:Hf.
  rewrite bind_run. unfold RETURN_IF_ERROR at 1.
  destruct stf as [|kf mf]; simpl IsOk; cbv iota.
  2:{ intros [= <- <-]. erewrite emitted_app by reflexivity.
      eapply exit_enumerate_files; [exact Hf|reflexivity|].
      split; [reflexivity|]. intros h Hh. inversion Hh. }
  rewrite bind_run. unfold call_GetDirectorySubdirs at 1.
  destruct (GetDirectorySubdirs E path) as [std dnames] eqn:Hd.
  rewrite bind_run. unfold RETURN_IF_ERROR at 1.
  destruct std as [|kd md]; simpl IsOk; cbv iota.
  2:{ intros [= <- <-]. erewrite emitted_app.
      - eapply exit_enumerate_subdirs; [exact Hf|exact Hd|reflexivity|].
        split; [reflexivity|]. intros h Hh. inversion Hh.
      - simpl. rewrite <- app_assoc. reflexivity. }
  set (fl := set_insert_all fnames []).
  set (sl := set_insert_all dnames []).
  set (σ2 := log (EvGetDirectorySubdirs path Success)
               (log (EvGetDirectoryFiles path true Success) σ)).
  rewrite bind_run.
  destruct (allocate_local_onnx_run E (length fl) σ2)
    as (σ3 & Halloc & Htr3 & Hb3 & Hlive3).
  rewrite Halloc.
  set (hs := seq (next_handle σ2) (length fl)) in *.
  assert (Hscan : scanned E path σ fl sl hs).
  { split; [exists fnames; auto|exists dnames; auto|reflexivity]. }
  assert (Htr3' : trace σ3 = trace σ ++ scan_events path ++ new_events hs).
  { rewrite Htr3. simpl. rewrite <- !app_assoc. reflexivity. }
  assert (Hb2 : backend_out σ3 = backend_out σ) by (rewrite Hb3; reflexivity).
  assert (Hlen : length hs = length fl) by apply length_seq.
  clearbody σ2. clear Htr3 Hb3.
  unfold at_scope_exit. rewrite bind_run. unfold localize_subdirs.
  pose proof (localize_loop E path (map Some hs) sl [] hs 0 ∅ σ3
                eq_refl eq_refl Hlive3) as Hloc.
  destruct (for_each sl (localize_body E path (map Some hs)) (0, ∅) σ3)
    as [[[i m1]|st|] σ4].
  - destruct Hloc as (Hle & Htr4 & Hm1 & (_ & Hb4 & _ & _)).
    rewrite bind_run. unfold read_files.
    pose proof (read_loop E path fl m1 σ4) as Hread.
    destruct (for_each fl (read_body E path) m1 σ4) as [[m2|st|] σ5];
      [| |contradiction].
    + destruct Hread as (Htr5 & Hm2 & (_ & Hb5 & _ & _)).
      pose proof (resolved_of_loops E path fl sl m1 m2 Hm1 Hm2) as Hres.
      rewrite construct_run. cbv zeta.
      destruct (init_status E path model_config mcc) as [|ki mi] eqn:Hinit.
      * destruct (OnnxBackend_CreateExecutionContexts E
                    (initialized_backend E path model_config mcc) m2)
          as [|kc mc] eqn:Hcec.
        -- intros [= <- <-].
           match goal with
           | |- context [destroy_vector _ ?s] =>
               destruct (destroy_vector_run hs s) as (Htr6 & Hb6 & Hl6 & _)
           end.
           erewrite emitted_app.
           ++ eapply exit_success; eauto; try lia;
                try (rewrite Hb6; reflexivity).
           ++ rewrite Htr6. simpl trace. rewrite Htr5, Htr4, Htr3'.
              rewrite <- !app_assoc. reflexivity.
        -- intros [= <- <-].
           match goal with
           | |- context [destroy_vector _ ?s] =>
               destruct (destroy_vector_run hs s) as (Htr6 & Hb6 & Hl6 & _)
           end.
           erewrite emitted_app.
           ++ eapply exit_contexts; eauto; try lia;
                try (split; [|exact Hl6];
                     rewrite Hb6; simpl backend_out;
                     rewrite Hb5, Hb4, Hb2; reflexivity).
           ++ rewrite Htr6. simpl trace. rewrite Htr5, Htr4, Htr3'.
              rewrite <- !app_assoc. reflexivity.
      * intros [= <- <-].
        match goal with
        | |- context [destroy_vector ?v ?s] =>
            destruct (destroy_vector_run hs s) as (Htr6 & Hb6 & Hl6 & _);
            simpl backend_out in Hb6; simpl trace in Htr6;
            set (σ6 := destroy_vector v s) in *; clearbody σ6
        end.
        rewrite Hb5, Hb4, Hb2 in Hb6. rewrite Htr5, Htr4, Htr3' in Htr6.
        assert (Hfail : IsOk (init_status E path model_config mcc) = false)
          by (rewrite Hinit; reflexivity).
        rewrite <- Hinit in Htr6 |- *.
        erewrite emitted_app.
        -- eapply exit_init; eauto; try lia. split; assumption.
        -- rewrite Htr6, <- !app_assoc. reflexivity.
    + destruct Hread as (Hst & (_ & Hb5 & _ & _) & pre & f & post & Hfl & Htr5).
      intros [= <- <-].
      destruct (destroy_vector_run hs σ5) as (Htr6 & Hb6 & Hl6 & _).
      erewrite emitted_app.
      * eapply exit_read; eauto; try lia;
          try (split; [|exact Hl6]; rewrite Hb6, Hb5, Hb4, Hb2; reflexivity).
      * rewrite Htr6, Htr5, Htr4, Htr3', <- !app_assoc. reflexivity.
  - destruct Hloc as (Hst & (_ & Hb4 & _ & _) & pre & d & post & h & Hsl & Hh & Htr4).
    intros [= <- <-].
    destruct (destroy_vector_run hs σ4) as (Htr6 & Hb6 & Hl6 & _).
    erewrite emitted_app.
    + eapply exit_localize; eauto;
        try (split; [|exact Hl6]; rewrite Hb6, Hb4, Hb2; reflexivity).
    + rewrite Htr6, Htr4, Htr3', <- !app_assoc. reflexivity.
  - destruct Hloc as (Hlt & (_ & Hb4 & _ & _) & Htr4).
    intros [= <- <-].
    erewrite emitted_app.
    + eapply exit_out_of_range; eauto; try lia;
        try (rewrite Hb4, Hb2; reflexivity).
    + rewrite Htr4, Htr3', <- !app_assoc. reflexivity.
Qed.

(** ** Observations on the segments of a trace *)

Lemma omap_map_None {A B C} (f : B -> option C) (g : A -> B) (l : list A) :
  (forall x, f (g x) = None) -> omap f (map g l) = [].
Proof.
  intros H. induction l as [|x l IH]; simpl; [reflexivity|].
  rewrite H. exact IH.
Qed.

Lemma omap_map_Some {A B C} (f : B -> option C) (g : A -> B) (k : A -> C)
  (l : list A) :
  (forall x, f (g x) = Some (k x)) -> omap f (map g l) = map k l.
Proof.
  intros H. induction l as [|x l IH]; simpl; [reflexivity|].
  rewrite H. simpl. f_equal. exact IH.
Qed.

Lemma statuses_new_events hs : statuses (new_events hs) = [].
Proof. apply omap_map_None. reflexivity. Qed.

Lemma statuses_delete_events hs : statuses (delete_events hs) = [].
Proof. apply omap_map_None. reflexivity. Qed.

Lemma statuses_read_events E path fl :
  statuses (read_events E path fl) = replicate (length fl) Success.
Proof.
  unfold statuses, read_events.
  rewrite (omap_map_Some _ _ (fun _ => Success)) by reflexivity.
  induction fl as [|f fl IH]; simpl; [reflexivity|]. rewrite IH. reflexivity.
Qed.

Lemma statuses_localize_events E path dirs :
  forall hs,
    statuses (localize_events E path dirs hs)
    = replicate (length (localize_events E path dirs hs)) Success.
Proof.
  induction dirs as [|d dirs IH]; intros [|h hs]; simpl; try reflexivity.
  unfold statuses in *. simpl. f_equal. apply IH.
Qed.

Lemma allocations_new_events hs : allocations (new_events hs) = hs.
Proof.
  unfold allocations, new_events.
  rewrite (omap_map_Some _ _ id) by reflexivity. apply map_id.
Qed.

Lemma allocations_delete_events hs : allocations (delete_events hs) = [].
Proof. apply omap_map_None. reflexivity. Qed.

Lemma allocations_read_events E path fl :
  allocations (read_events E path fl) = [].
Proof. apply omap_map_None. reflexivity. Qed.

Lemma allocations_localize_events E path dirs :
  forall hs, allocations (localize_events E path dirs hs) = [].
Proof.
  induction dirs as [|d dirs IH]; intros [|h hs]; simpl; try reflexivity.
  apply IH.
Qed.

Lemma releases_new_events hs : releases (new_events hs) = [].
Proof. apply omap_map_None. reflexivity. Qed.

Lemma releases_delete_events hs : releases (delete_events hs) = hs.
Proof.
  unfold releases, delete_events.
  rewrite (omap_map_Some _ _ id) by reflexivity. apply map_id.
Qed.

Lemma releases_read_events E path fl : releases (read_events E path fl) = [].
Proof. apply omap_map_None. reflexivity. Qed.

Lemma releases_localize_events E path dirs :
  forall hs, releases (localize_events E path dirs hs) = [].
Proof.
  induction dirs as [|d dirs IH]; intros [|h hs]; simpl; try reflexivity.
  apply IH.
Qed.

Lemma localizations_new_events hs : localizations (new_events hs) = [].
Proof. apply omap_map_None. reflexivity. Qed.

Lemma localizations_delete_events hs : localizations (delete_events hs) = [].
Proof. apply omap_map_None. reflexivity. Qed.

Lemma localizations_read_events E path fl :
  localizations (read_events E path fl) = [].
Proof. apply omap_map_None. reflexivity. Qed.

Lemma localizations_localize_events E path dirs :
  forall hs,
    localizations (localize_events E path dirs hs) = take (length dirs) hs.
Proof.
  induction dirs as [|d dirs IH]; intros [|h hs]; simpl; try reflexivity.
  unfold localizations in *. simpl. f_equal. apply IH.
Qed.

Lemma artifact_maps_new_events hs : artifact_maps (new_events hs) = [].
Proof. apply omap_map_None. reflexivity. Qed.

Lemma artifact_maps_delete_events hs : artifact_maps (delete_events hs) = [].
Proof. apply omap_map_None. reflexivity. Qed.

Lemma artifact_maps_read_events E path fl :
  artifact_maps (read_events E path fl) = [].
Proof. apply omap_map_None. reflexivity. Qed.

Lemma artifact_maps_localize_events E path dirs :
  forall hs, artifact_maps (localize_events E path dirs hs) = [].
Proof.
  induction dirs as [|d dirs IH]; intros [|h hs]; simpl; try reflexivity.
  apply IH.
Qed.

Create Rewrite HintDb trace_obs.
#[export] Hint Rewrite
  statuses_app statuses_new_events statuses_delete_events
  statuses_read_events statuses_localize_events
  allocations_app allocations_new_events allocations_delete_events
  allocations_read_events allocations_localize_events
  releases_app releases_new_events releases_delete_events
  releases_read_events releases_localize_events
  localizations_app localizations_new_events localizations_delete_events
  localizations_read_events localizations_localize_events
  artifact_maps_app artifact_maps_new_events artifact_maps_delete_events
  artifact_maps_read_events artifact_maps_localize_events
  : trace_obs.

(** Splits a run into its result, its events and its final state, and
    considers each exit it may have taken. *)
Ltac run_exits E path cfg mcc σ :=
  let out := fresh "out" in
  let σ' := fresh "σ'" in
  let Hrun := fresh "Hrun" in
  let Hexit := fresh "Hexit" in
  let t := fresh "t" in
  destruct (CreateBackend E path cfg mcc σ) as [out σ'] eqn:Hrun;
  pose proof (CreateBackend_exits E path cfg mcc σ σ' out Hrun) as Hexit;
  clear Hrun; cbn [fst snd] in *;
  generalize dependent (emitted σ σ'); intros t Hexit;
  destruct Hexit.

Ltac obs_done :=
  autorewrite with trace_obs; simpl;
  rewrite ?app_nil_r, <- ?app_assoc; simpl; reflexivity.

Ltac use_abandoned :=
  match goal with H : abandoned _ _ _ |- _ => apply H end.

Ltac failed_status st :=
  destruct st; [discriminate|].

Lemma Forall_replicate_Success (n : nat) :
  Forall (eq Success) (replicate n Success).
Proof. apply Forall_replicate. reflexivity. Qed.

(** ** Properties of [CreateBackend] *)

(** C5.  In every execution of [CreateBackend] the statuses of the steps
    executed are all successes except possibly the last one.  When the call
    returns an error, that error is the status of the last step executed,
    unchanged, no step ran after it and [*backend] holds what it held
    before.  When the call returns success every step succeeded and
    [*backend] holds the backend constructed from the artifact map handed to
    [CreateExecutionContexts]. *)
Theorem CreateBackend_first_error (E : Env) (path : string)
  (model_config : ModelConfig) (mcc : double) (σ : State) :
  let r := CreateBackend E path model_config mcc σ in
  exists pre,
    Forall (eq Success) pre /\
    match r.1 with
    | Returned Success =>
        statuses (emitted σ r.2) = pre /\
        exists m,
          artifact_maps (emitted σ r.2) = [m] /\
          backend_out r.2
          = Some (constructed_backend E path model_config mcc m)
    | Returned (Error kind msg) =>
        statuses (emitted σ r.2) = pre ++ [Error kind msg] /\
        backend_out r.2 = backend_out σ
    | UndefinedBehaviour =>
        statuses (emitted σ r.2) = pre /\
        backend_out r.2 = backend_out σ
    end.
Proof.
  cbv zeta. run_exits E path model_config mcc σ.
  - failed_status st.
    exists []. split; [constructor|]. split; [reflexivity|use_abandoned].
  - failed_status st.
    exists [Success]. split; [repeat constructor|].
    split; [reflexivity|use_abandoned].
  - exists ([Success; Success]
              ++ replicate (length (localize_events E path sl hs)) Success).
    split.
    + apply Forall_app. split; [repeat constructor|].
      apply Forall_replicate_Success.
    + split; [|assumption].
      obs_done.
  - failed_status st.
    exists ([Success; Success]
              ++ replicate (length (localize_events E path pre hs)) Success).
    split.
    + apply Forall_app. split; [repeat constructor|].
      apply Forall_replicate_Success.
    + split; [|use_abandoned].
      obs_done.
  - failed_status st.
    exists ([Success; Success]
              ++ replicate (length (localize_events E path sl hs)) Success
              ++ replicate (length pre) Success).
    split.
    + apply Forall_app. split; [repeat constructor|].
      apply Forall_app. split; apply Forall_replicate_Success.
    + split; [|use_abandoned].
      obs_done.
  - destruct (init_status E path model_config mcc) as [|kind msg] eqn:Hinit;
      [discriminate|].
    exists ([Success; Success]
              ++ replicate (length (localize_events E path sl hs)) Success
              ++ replicate (length fl) Success).
    split.
    + apply Forall_app. split; [repeat constructor|].
      apply Forall_app. split; apply Forall_replicate_Success.
    + split; [|use_abandoned].
      obs_done.
  - failed_status st.
    exists ([Success; Success]
              ++ replicate (length (localize_events E path sl hs)) Success
              ++ replicate (length fl) Success ++ [Success]).
    split.
    + apply Forall_app. split; [repeat constructor|].
      apply Forall_app. split; [apply Forall_replicate_Success|].
      apply Forall_app. split; [apply Forall_replicate_Success|].
      repeat constructor.
    + split; [|use_abandoned].
      obs_done.
  - exists ([Success; Success]
              ++ replicate (length (localize_events E path sl hs)) Success
              ++ replicate (length fl) Success ++ [Success; Success]).
    split.
    + apply Forall_app. split; [repeat constructor|].
      apply Forall_app. split; [apply Forall_replicate_Success|].
      apply Forall_app. split; [apply Forall_replicate_Success|].
      repeat constructor.
    + split.
      * obs_done.
      * exists m. split; [|assumption].
        obs_done.
Qed.

(** A map reaches [CreateExecutionContexts] only after both enumerations
    and both loops succeeded, and then it is resolved. *)
Lemma handed_map_resolved (E : Env) (path : string)
  (model_config : ModelConfig) (mcc : double) (σ : State) (m : ArtifactMap) :
  m ∈ artifact_maps
        (emitted σ (CreateBackend E path model_config mcc σ).2) ->
  exists fnames dnames,
    GetDirectoryFiles E path true = (Success, fnames) /\
    GetDirectorySubdirs E path = (Success, dnames) /\
    resolved E path (set_insert_all fnames []) (set_insert_all dnames []) m.
Proof.
  run_exits E path model_config mcc σ; autorewrite with trace_obs; simpl;
    intros Hm; try (inversion Hm; fail).
  - apply list_elem_of_singleton in Hm. subst m0.
    destruct H as [(fnames & Hf & ->) (dnames & Hd & ->) _].
    exists fnames, dnames. auto.
  - apply list_elem_of_singleton in Hm. subst m0.
    destruct H as [(fnames & Hf & ->) (dnames & Hd & ->) _].
    exists fnames, dnames. auto.
Qed.

Lemma resolved_nil (E : Env) (path : string) (m : ArtifactMap) :
  resolved E path [] [] m -> m = ∅.
Proof.
  intros (_ & _ & Honly). apply map_eq. intros k. rewrite lookup_empty.
  destruct (m !! k) as [v|] eqn:Hk; [|reflexivity].
  destruct (Honly k) as [Hin|Hin]; [eauto|inversion Hin|inversion Hin].
Qed.

(** Uses the results of the enumerations known from the context. *)
Ltac scanned_as Hf Hd :=
  match goal with
  | H : scanned _ _ _ _ _ _ |- _ =>
      let fn := fresh "fnames" in
      let dn := fresh "dnames" in
      let Hf' := fresh "Hf'" in
      let Hd' := fresh "Hd'" in
      let Hhs := fresh "Hhs" in
      destruct H as [(fn & Hf' & ->) (dn & Hd' & ->) Hhs];
      rewrite Hf in Hf'; rewrite Hd in Hd';
      injection Hf' as <-; injection Hd' as <-
  end.

Ltac enumeration_failed Hf Hd :=
  match goal with
  | H : GetDirectoryFiles _ _ _ = (?st, _), H' : IsOk ?st = false |- _ =>
      rewrite Hf in H; injection H as <- <-; discriminate H'
  | H : GetDirectorySubdirs _ _ = (?st, _), H' : IsOk ?st = false |- _ =>
      rewrite Hd in H; injection H as <- <-; discriminate H'
  end.

(** C7.  The events of every [CreateBackend] call split into a body and a
    clean-up.  No temporary directory is released in the body, which holds
    every step of the call: localization, reads, backend [Init] and
    [CreateExecutionContexts]; the clean-up runs no step and allocates
    nothing.  Whenever the call returns, with success or with any error,
    the clean-up releases exactly the directories the call allocated, each
    once, and none of them is alive afterwards. *)
Theorem CreateBackend_store_lifetime (E : Env) (path : string)
  (model_config : ModelConfig) (mcc : double) (σ : State) :
  let r := CreateBackend E path model_config mcc σ in
  exists body cleanup,
    emitted σ r.2 = body ++ cleanup /\
    releases body = [] /\
    statuses cleanup = [] /\
    allocations cleanup = [] /\
    match r.1 with
    | Returned _ =>
        releases cleanup = allocations body /\
        NoDup (allocations body) /\
        forall h, h ∈ allocations body -> live r.2 !! h = None
    | UndefinedBehaviour => cleanup = []
    end.
Proof.
  cbv zeta. run_exits E path model_config mcc σ.
  - exists [EvGetDirectoryFiles path true st], [].
    repeat split; try reflexivity; [constructor|].
    intros h Hh. inversion Hh.
  - exists [EvGetDirectoryFiles path true Success;
            EvGetDirectorySubdirs path st], [].
    repeat split; try reflexivity; [constructor|].
    intros h Hh. inversion Hh.
  - eexists _, []. split; [rewrite app_nil_r; reflexivity|].
    repeat split; try reflexivity. obs_done.
  - exists (scan_events path ++ new_events hs
              ++ localize_events E path pre hs
              ++ [EvLocalizeFileFolder (JoinPath E [path; d]) h st]),
           (delete_events hs).
    split; [rewrite <- !app_assoc; reflexivity|].
    assert (Hal : allocations
                    (scan_events path ++ new_events hs
                       ++ localize_events E path pre hs
                       ++ [EvLocalizeFileFolder (JoinPath E [path; d]) h st])
                  = hs) by obs_done.
    rewrite Hal. repeat split; try obs_done.
    + destruct H as [_ _ ->]. apply NoDup_seq.
    + use_abandoned.
  - exists (scan_events path ++ new_events hs
              ++ localize_events E path sl hs ++ read_events E path pre
              ++ [EvReadTextFile (JoinPath E [path; f]) st]),
           (delete_events hs).
    split; [rewrite <- !app_assoc; reflexivity|].
    assert (Hal : allocations
                    (scan_events path ++ new_events hs
                       ++ localize_events E path sl hs
                       ++ read_events E path pre
                       ++ [EvReadTextFile (JoinPath E [path; f]) st])
                  = hs) by obs_done.
    rewrite Hal. repeat split; try obs_done.
    + destruct H as [_ _ ->]. apply NoDup_seq.
    + use_abandoned.
  - exists (scan_events path ++ new_events hs
              ++ localize_events E path sl hs ++ read_events E path fl
              ++ [init_event E path (init_status E path model_config mcc)]),
           (delete_events hs).
    split; [rewrite <- !app_assoc; reflexivity|].
    assert (Hal : allocations
                    (scan_events path ++ new_events hs
                       ++ localize_events E path sl hs
                       ++ read_events E path fl
                       ++ [init_event E path
                             (init_status E path model_config mcc)])
                  = hs) by obs_done.
    rewrite Hal. repeat split; try obs_done.
    + destruct H as [_ _ ->]. apply NoDup_seq.
    + use_abandoned.
  - exists (scan_events path ++ new_events hs
              ++ localize_events E path sl hs ++ read_events E path fl
              ++ [init_event E path Success;
                  EvCreateExecutionContexts m st]),
           (delete_events hs).
    split; [rewrite <- !app_assoc; reflexivity|].
    assert (Hal : allocations
                    (scan_events path ++ new_events hs
                       ++ localize_events E path sl hs
                       ++ read_events E path fl
                       ++ [init_event E path Success;
                           EvCreateExecutionContexts m st])
                  = hs) by obs_done.
    rewrite Hal. repeat split; try obs_done.
    + destruct H as [_ _ ->]. apply NoDup_seq.
    + use_abandoned.
  - exists (scan_events path ++ new_events hs
              ++ localize_events E path sl hs ++ read_events E path fl
              ++ [init_event E path Success;
                  EvCreateExecutionContexts m Success]),
           (delete_events hs).
    split; [rewrite <- !app_assoc; reflexivity|].
    assert (Hal : allocations
                    (scan_events path ++ new_events hs
                       ++ localize_events E path sl hs
                       ++ read_events E path fl
                       ++ [init_event E path Success;
                           EvCreateExecutionContexts m Success])
                  = hs) by obs_done.
    rewrite Hal. repeat split; try obs_done.
    + destruct H as [_ _ ->]. apply NoDup_seq.
    + assumption.
Qed.

(** C8.  When both enumerations succeed, the first events of the call after
    the two scans are the allocations of one temporary directory per name in
    the set of files found (the distinct names the file enumeration
    reported), and nothing is allocated afterwards: every localization
    comes after all the allocations, and the number of subdirectories plays
    no part.  When no subdirectory was found, no temporary directory is
    ever handed to a localization. *)
Theorem CreateBackend_one_store_per_file (E : Env) (path : string)
  (model_config : ModelConfig) (mcc : double) (σ : State)
  (fnames dnames : list string) :
  GetDirectoryFiles E path true = (Success, fnames) ->
  GetDirectorySubdirs E path = (Success, dnames) ->
  let r := CreateBackend E path model_config mcc σ in
  let onnx_files := set_insert_all fnames [] in
  NoDup onnx_files /\
  (forall f, f ∈ onnx_files <-> f ∈ fnames) /\
  exists rest,
    emitted σ r.2
    = scan_events path
        ++ new_events (seq (next_handle σ) (length onnx_files)) ++ rest /\
    allocations rest = [] /\
    localizations (emitted σ r.2) = localizations rest /\
    length (allocations (emitted σ r.2)) = length onnx_files /\
    (dnames = [] -> localizations (emitted σ r.2) = []).
Proof.
  intros Hf Hd. cbv zeta.
  split; [apply set_insert_all_NoDup|].
  split; [intros f; apply set_insert_all_elem|].
  run_exits E path model_config mcc σ; try enumeration_failed Hf Hd;
    scanned_as Hf Hd; subst hs.
  - eexists. split; [reflexivity|]. split; [obs_done|].
    split; [obs_done|].
    split; [autorewrite with trace_obs; simpl;
            rewrite app_nil_r; apply length_seq|].
    intros ->. obs_done.
  - eexists. split; [reflexivity|]. split; [obs_done|].
    split; [obs_done|].
    split; [autorewrite with trace_obs; simpl;
            rewrite app_nil_r; apply length_seq|].
    intros ->. simpl in *. destruct pre; discriminate.
  - eexists. split; [reflexivity|]. split; [obs_done|].
    split; [obs_done|].
    split; [autorewrite with trace_obs; simpl;
            rewrite app_nil_r; apply length_seq|].
    intros ->. obs_done.
  - eexists. split; [reflexivity|]. split; [obs_done|].
    split; [obs_done|].
    split; [autorewrite with trace_obs; simpl;
            rewrite app_nil_r; apply length_seq|].
    intros ->. obs_done.
  - eexists. split; [reflexivity|]. split; [obs_done|].
    split; [obs_done|].
    split; [autorewrite with trace_obs; simpl;
            rewrite app_nil_r; apply length_seq|].
    intros ->. obs_done.
  - eexists. split; [reflexivity|]. split; [obs_done|].
    split; [obs_done|].
    split; [autorewrite with trace_obs; simpl;
            rewrite app_nil_r; apply length_seq|].
    intros ->. obs_done.
Qed.

(** C9.  When the file enumeration (hidden files skipped) and the
    subdirectory enumeration both succeed and find nothing, resolution
    reports no error: after the two scans the call goes on to backend
    [Init], and once [Init] has succeeded it calls
    [CreateExecutionContexts] with the empty artifact map.  The call returns
    what these two return, and on success [*backend] holds the backend
    built from the empty map. *)
Theorem CreateBackend_empty_directory (E : Env) (path : string)
  (model_config : ModelConfig) (mcc : double) (σ : State) :
  GetDirectoryFiles E path true = (Success, []) ->
  GetDirectorySubdirs E path = (Success, []) ->
  let r := CreateBackend E path model_config mcc σ in
  let st1 := init_status E path model_config mcc in
  let st2 :=
    OnnxBackend_CreateExecutionContexts E
      (initialized_backend E path model_config mcc) ∅ in
  emitted σ r.2
  = scan_events path
      ++ init_event E path st1
      :: (if IsOk st1 then [EvCreateExecutionContexts ∅ st2] else []) /\
  r.1 = Returned (if IsOk st1 then st2 else st1) /\
  (IsOk st1 = true -> IsOk st2 = true ->
   backend_out r.2
   = Some (constructed_backend E path model_config mcc ∅)).
Proof.
  intros Hf Hd. cbv zeta.
  run_exits E path model_config mcc σ; try enumeration_failed Hf Hd;
    scanned_as Hf Hd; subst hs; simpl in *.
  - lia.
  - destruct pre; discriminate.
  - destruct pre; discriminate.
  - match goal with
    | H : IsOk (init_status _ _ _ _) = false |- _ => rewrite H
    end.
    repeat split. discriminate.
  - match goal with
    | H : resolved _ _ [] [] _ |- _ => apply resolved_nil in H; subst m
    end.
    match goal with
    | H : init_status _ _ _ _ = Success |- _ => rewrite H
    end.
    subst st. simpl.
    match goal with
    | H : IsOk _ = false |- _ => rewrite H
    end.
    repeat split. discriminate.
  - match goal with
    | H : resolved _ _ [] [] _ |- _ => apply resolved_nil in H; subst m
    end.
    match goal with
    | H : init_status _ _ _ _ = Success |- _ => rewrite H
    end.
    match goal with
    | H : OnnxBackend_CreateExecutionContexts _ _ _ = Success |- _ =>
        rewrite H
    end.
    simpl. repeat split. intros _ _. assumption.
Qed.

(** What holds of the maps that are built.  When the two enumerations
    succeed and no name is reported both as a file and as a subdirectory,
    every artifact map that [CreateBackend] hands to
    [CreateExecutionContexts] holds every file name found, mapped to an
    inline entry, and every subdirectory name found, mapped to a localized
    entry; it holds no other key, and each key occurs once.  No map is built
    when the subdirectories outnumber the files
    ([more_subdirs_than_files]). *)
Theorem CreateBackend_artifact_map_complete (E : Env) (path : string)
  (model_config : ModelConfig) (mcc : double) (σ : State)
  (fnames dnames : list string) :
  GetDirectoryFiles E path true = (Success, fnames) ->
  GetDirectorySubdirs E path = (Success, dnames) ->
  (forall name, name ∈ fnames -> name ∉ dnames) ->
  forall m,
    m ∈ artifact_maps
          (emitted σ (CreateBackend E path model_config mcc σ).2) ->
    (forall f, f ∈ fnames -> exists contents, m !! f = Some (Inline contents))
    /\ (forall d, d ∈ dnames -> exists p, m !! d = Some (Localized p))
    /\ (forall k, is_Some (m !! k) -> k ∈ fnames \/ k ∈ dnames)
    /\ NoDup (map_to_list m).*1.
Proof.
  intros Hf Hd Hdisj m Hm.
  apply handed_map_resolved in Hm
    as (fnames' & dnames' & Hf' & Hd' & Hsub & Hfile & Honly).
  rewrite Hf in Hf'. rewrite Hd in Hd'.
  injection Hf' as <-. injection Hd' as <-.
  split; [|split; [|split]].
  - intros f Hin. eexists. apply Hfile.
    + apply set_insert_all_elem. exact Hin.
    + rewrite set_insert_all_elem. apply Hdisj. exact Hin.
  - intros d Hin. apply Hsub, set_insert_all_elem. exact Hin.
  - intros k Hk. destruct (Honly k Hk) as [Hin|Hin];
      apply (proj1 (set_insert_all_elem _ _)) in Hin; auto.
  - apply NoDup_fst_map_to_list.
Qed.

(** ** The model directory *)

Lemma strip_prefix_app (p s : string) :
  strip_prefix p (p ++ s)%string = Some s.
Proof.
  induction p as [|a p IH]; simpl; [reflexivity|].
  rewrite Ascii.eqb_refl. exact IH.
Qed.

Lemma string_app_assoc (a b c : string) :
  ((a ++ b) ++ c)%string = (a ++ b ++ c)%string.
Proof.
  induction a as [|x a IH]; [reflexivity|].
  change (String x ((a ++ b) ++ c)%string = String x (a ++ b ++ c)%string).
  f_equal. exact IH.
Qed.

Lemma elem_of_dir_files (skip : bool) (d : gmap string DirEntry)
  (name : string) :
  name ∈ dir_files skip d <->
  exists contents,
    d !! name = Some (RegularFile contents) /\
    skip && is_hidden name = false.
Proof.
  unfold dir_files. rewrite list_elem_of_omap. split.
  - intros ([n e] & Hin & Hsel). apply elem_of_map_to_list in Hin.
    simpl in Hsel. destruct e as [contents|]; [|discriminate].
    destruct (skip && is_hidden n) eqn:Hh; [discriminate|].
    injection Hsel as ->. exists contents. auto.
  - intros (contents & Hd & Hh).
    exists (name, RegularFile contents). split.
    + apply elem_of_map_to_list. exact Hd.
    + simpl. rewrite Hh. reflexivity.
Qed.

Lemma elem_of_dir_subdirs (d : gmap string DirEntry) (name : string) :
  name ∈ dir_subdirs d <->
  d !! name = Some Subdirectory /\ is_hidden name = false.
Proof.
  unfold dir_subdirs. rewrite list_elem_of_omap. split.
  - intros ([n e] & Hin & Hsel). apply elem_of_map_to_list in Hin.
    simpl in Hsel. destruct e as [contents|]; [discriminate|].
    destruct (is_hidden n) eqn:Hh; [discriminate|].
    injection Hsel as ->. auto.
  - intros [Hd Hh]. exists (name, Subdirectory). split.
    + apply elem_of_map_to_list. exact Hd.
    + simpl. rewrite Hh. reflexivity.
Qed.

Lemma env_of_dir_files (root : string) (d : gmap string DirEntry)
  (base : Env) (skip : bool) :
  GetDirectoryFiles (env_of_dir root d base) root skip
  = (Success, dir_files skip d).
Proof. simpl. rewrite String.eqb_refl. reflexivity. Qed.

Lemma env_of_dir_subdirs (root : string) (d : gmap string DirEntry)
  (base : Env) :
  GetDirectorySubdirs (env_of_dir root d base) root
  = (Success, dir_subdirs d).
Proof. simpl. rewrite String.eqb_refl. reflexivity. Qed.

Lemma env_of_dir_read (root : string) (d : gmap string DirEntry)
  (base : Env) (name contents : string) :
  d !! name = Some (RegularFile contents) ->
  ReadTextFile (env_of_dir root d base)
    (JoinPath (env_of_dir root d base) [root; name])
  = (Success, contents).
Proof.
  intros Hd. simpl.
  rewrite <- string_app_assoc, strip_prefix_app, Hd. reflexivity.
Qed.

(** The maps built from a model directory. *)
Lemma handed_map_of_dir (root : string) (d : gmap string DirEntry)
  (base : Env) (model_config : ModelConfig) (mcc : double) (σ : State)
  (m : ArtifactMap) :
  m ∈ artifact_maps
        (emitted σ
           (CreateBackend (env_of_dir root d base) root model_config mcc
              σ).2) ->
  (forall name contents,
      d !! name = Some (RegularFile contents) -> is_hidden name = false ->
      m !! name = Some (Inline contents)) /\
  (forall name,
      d !! name = Some Subdirectory -> is_hidden name = false ->
      exists p, m !! name = Some (Localized p)) /\
  (forall name,
      is_Some (m !! name) ->
      is_hidden name = false /\
      (d !! name = Some Subdirectory \/
       exists contents, d !! name = Some (RegularFile contents))).
Proof.
  intros Hm. apply handed_map_resolved in Hm
    as (fnames & dnames & Hf & Hd & Hsub & Hfile & Honly).
  rewrite env_of_dir_files in Hf. rewrite env_of_dir_subdirs in Hd.
  injection Hf as <-. injection Hd as <-.
  split; [|split].
  - intros name contents Hname Hvis.
    rewrite Hfile.
    + rewrite (env_of_dir_read root d base name contents Hname).
      reflexivity.
    + apply set_insert_all_elem, elem_of_dir_files.
      exists contents. rewrite Hvis. auto.
    + rewrite set_insert_all_elem, elem_of_dir_subdirs.
      intros [Hdir _]. congruence.
  - intros name Hname Hvis.
    apply Hsub, set_insert_all_elem, elem_of_dir_subdirs. auto.
  - intros name Hkey. destruct (Honly name Hkey) as [Hin|Hin];
      apply (proj1 (set_insert_all_elem _ _)) in Hin.
    + apply elem_of_dir_subdirs in Hin as [Hname Hvis]. auto.
    + apply elem_of_dir_files in Hin as (contents & Hname & Hvis).
      split; [exact Hvis|]. right. exists contents. exact Hname.
Qed.

(** C3 (on the modelled directory).  Every artifact map that
    [CreateBackend] hands to [CreateExecutionContexts] maps the name of each
    non-hidden regular file of the model directory to an inline entry whose
    contents are the bytes of the file, unchanged; for the directory that
    holds only [model.bin], the map is exactly
    [{"model.bin": Inline(<the same bytes>)}]. *)
Theorem CreateBackend_inline_byte_exact (root : string)
  (d : gmap string DirEntry) (base : Env) (model_config : ModelConfig)
  (mcc : double) (σ : State) (m : ArtifactMap) :
  m ∈ artifact_maps
        (emitted σ
           (CreateBackend (env_of_dir root d base) root model_config mcc
              σ).2) ->
  (forall name contents,
      d !! name = Some (RegularFile contents) -> is_hidden name = false ->
      m !! name = Some (Inline contents)) /\
  (d = model_bin_dir -> m = {[ "model.bin" := Inline model_bin_bytes ]}).
Proof.
  intros Hm. apply handed_map_of_dir in Hm as (Hfile & Hsub & Honly).
  split; [exact Hfile|].
  intros ->. apply map_eq. intros name.
  destruct (decide (name = "model.bin")) as [->|Hne].
  - rewrite lookup_singleton_eq. apply Hfile; reflexivity.
  - rewrite lookup_singleton_ne by congruence.
    destruct (m !! name) as [v|] eqn:Hv; [|reflexivity].
    unfold model_bin_dir in Honly.
    destruct (Honly name) as [_ [Hdir|[contents Hdir]]]; [eauto| |];
      rewrite lookup_singleton_ne in Hdir by congruence; discriminate.
Qed.

Lemma CreateBackend_inline_byte_exact_witness :
  String.length model_bin_bytes = 10 /\
  String.get 3 model_bin_bytes = Some "000"%char /\
  artifact_maps
    (emitted initial_state
       (CreateBackend (env_of_dir "/models/m" model_bin_dir ok_env)
          "/models/m" "" 0%Z initial_state).2)
  = [{[ "model.bin" := Inline model_bin_bytes ]}] /\
  ((forall name contents,
       model_bin_dir !! name = Some (RegularFile contents) ->
       is_hidden name = false ->
       ({[ "model.bin" := Inline model_bin_bytes ]} : ArtifactMap) !! name
       = Some (Inline contents)) /\
   (model_bin_dir = model_bin_dir ->
    ({[ "model.bin" := Inline model_bin_bytes ]} : ArtifactMap)
    = {[ "model.bin" := Inline model_bin_bytes ]})).
Proof.
  split; [reflexivity|]. split; [reflexivity|]. split; [reflexivity|].
  apply (CreateBackend_inline_byte_exact "/models/m" model_bin_dir ok_env ""
           0%Z initial_state).
  vm_compute. left.
Defined.



(** ** Properties of [Create] *)

Lemma Create_run (E : Env) (backend_config : BackendConfig) (σ : State) :
  Create E backend_config σ
  = match OnnxLoader_Init E with
    | Success =>
        (Returned Success,
         destroy_unique_factory (factory_out σ)
           (set_factory_out (Some (mkFactory backend_config))
              (log (EvLoaderInit Success) σ)))
    | Error kind msg =>
        (Returned (Error kind msg),
         OnnxLoader_Stop (log (EvLoaderInit (Error kind msg)) σ))
    end.
Proof.
  unfold Create, function_body, on_early_return, bind, call_OnnxLoader_Init,
    RETURN_IF_ERROR, assign_factory, ret, static_pointer_cast_Config.
  destruct (OnnxLoader_Init E); reflexivity.
Qed.

(** C2 as amended.  For every backend configuration, whatever its runtime
    shape, [Create] casts it without a check, calls the loader's [Init]
    once, and returns what [Init] returned; when [Init] succeeds [*factory]
    owns a factory holding that configuration, and when [Init] fails
    [*factory] is left as it was. *)
Theorem Create_ignores_config_shape (E : Env) (backend_config : BackendConfig)
  (σ : State) :
  let r := Create E backend_config σ in
  r.1 = Returned (OnnxLoader_Init E) /\
  statuses (emitted σ r.2) = [OnnxLoader_Init E] /\
  factory_out r.2
  = if IsOk (OnnxLoader_Init E)
    then Some {| backend_config_ := backend_config |}
    else factory_out σ.
Proof.
  cbv zeta. rewrite Create_run.
  destruct (OnnxLoader_Init E) as [|kind msg]; simpl.
  - split; [reflexivity|]. split.
    + destruct (factory_out σ); simpl.
      * erewrite emitted_app; [|simpl; rewrite <- app_assoc; reflexivity].
        reflexivity.
      * erewrite emitted_app; [|reflexivity]. reflexivity.
    + destruct (factory_out σ); reflexivity.
  - split; [reflexivity|]. split; [|reflexivity].
    erewrite emitted_app; [|simpl; rewrite <- app_assoc; reflexivity].
    reflexivity.
Qed.

(** C2 as stated fails: a configuration of another runtime is accepted,
    and the loader's [Init] is invoked. *)
Lemma Create_incompatible_config_counterexample :
  ~ (dynamic_type tensorrt_config <> OnnxRuntimeConfig ->
     (exists msg,
         (Create ok_env tensorrt_config initial_state).1
         = Returned (Error ConfigTypeError msg)) /\
     statuses
       (emitted initial_state
          (Create ok_env tensorrt_config initial_state).2) = []).
Proof.
  intros Hclaim. destruct Hclaim as [[msg Hmsg] _]; [discriminate|].
  vm_compute in Hmsg. discriminate Hmsg.
Qed.

(** C10.  When the loader's [Init] fails during [Create], the call returns
    that error, [*factory] is left as it was, and the local factory is
    destroyed: the events of the call are the failed [Init] followed by the
    loader's [Stop], with no successful [Init] before it. *)
Theorem Create_Init_failure (E : Env) (backend_config : BackendConfig)
  (σ : State) (kind : ErrorKind) (msg : string) :
  OnnxLoader_Init E = Error kind msg ->
  let r := Create E backend_config σ in
  r.1 = Returned (Error kind msg) /\
  factory_out r.2 = factory_out σ /\
  emitted σ r.2 = [EvLoaderInit (Error kind msg); EvLoaderStop].
Proof.
  intros Hinit. cbv zeta. rewrite Create_run, Hinit. simpl.
  split; [reflexivity|]. split; [reflexivity|].
  apply emitted_app. simpl. rewrite <- app_assoc. reflexivity.
Qed.

Lemma Create_Init_failure_witness :
  OnnxLoader_Init failing_loader_env
  = Error InitializationError "libonnxruntime missing" /\
  let r := Create failing_loader_env onnx_config initial_state in
  r.1 = Returned (Error InitializationError "libonnxruntime missing") /\
  factory_out r.2 = factory_out initial_state /\
  emitted initial_state r.2
  = [EvLoaderInit (Error InitializationError "libonnxruntime missing");
     EvLoaderStop].
Proof.
  split; [reflexivity|].
  apply (Create_Init_failure failing_loader_env onnx_config initial_state).
  reflexivity.
Defined.

(** ** Instances, and the out-of-range access *)

Lemma CreateBackend_one_store_per_file_witness :
  let E := env_of_dir "/models/m" files_only_dir ok_env in
  let r := CreateBackend E "/models/m" "" 0%Z initial_state in
  GetDirectoryFiles E "/models/m" true
  = (Success, ["config.pbtxt"; "model.onnx"]) /\
  GetDirectorySubdirs E "/models/m" = (Success, []) /\
  allocations (emitted initial_state r.2) = [0; 1] /\
  NoDup (set_insert_all ["config.pbtxt"; "model.onnx"] []) /\
  (forall f,
      f ∈ set_insert_all ["config.pbtxt"; "model.onnx"] [] <->
      f ∈ ["config.pbtxt"; "model.onnx"]) /\
  exists rest,
    emitted initial_state r.2
    = scan_events "/models/m"
        ++ new_events
             (seq (next_handle initial_state)
                (length (set_insert_all ["config.pbtxt"; "model.onnx"] [])))
        ++ rest /\
    allocations rest = [] /\
    localizations (emitted initial_state r.2) = localizations rest /\
    length (allocations (emitted initial_state r.2))
    = length (set_insert_all ["config.pbtxt"; "model.onnx"] []) /\
    (@nil string = [] -> localizations (emitted initial_state r.2) = []).
Proof.
  cbv zeta. split; [reflexivity|]. split; [reflexivity|].
  split; [reflexivity|].
  apply (CreateBackend_one_store_per_file
           (env_of_dir "/models/m" files_only_dir ok_env) "/models/m" ""
           0%Z initial_state ["config.pbtxt"; "model.onnx"] []);
    reflexivity.
Defined.

Lemma CreateBackend_empty_directory_witness :
  let E := env_of_dir "/models/m" hidden_only_dir ok_env in
  let r := CreateBackend E "/models/m" "" 0%Z initial_state in
  GetDirectoryFiles E "/models/m" true = (Success, []) /\
  GetDirectorySubdirs E "/models/m" = (Success, []) /\
  emitted initial_state r.2
  = scan_events "/models/m"
      ++ init_event E "/models/m" (init_status E "/models/m" "" 0%Z)
      :: (if IsOk (init_status E "/models/m" "" 0%Z)
          then [EvCreateExecutionContexts ∅
                  (OnnxBackend_CreateExecutionContexts E
                     (initialized_backend E "/models/m" "" 0%Z) ∅)]
          else []) /\
  r.1 = Returned
          (if IsOk (init_status E "/models/m" "" 0%Z)
           then OnnxBackend_CreateExecutionContexts E
                  (initialized_backend E "/models/m" "" 0%Z) ∅
           else init_status E "/models/m" "" 0%Z) /\
  (IsOk (init_status E "/models/m" "" 0%Z) = true ->
   IsOk (OnnxBackend_CreateExecutionContexts E
           (initialized_backend E "/models/m" "" 0%Z) ∅) = true ->
   backend_out r.2 = Some (constructed_backend E "/models/m" "" 0%Z ∅)).
Proof.
  cbv zeta. split; [reflexivity|]. split; [reflexivity|].
  apply (CreateBackend_empty_directory
           (env_of_dir "/models/m" hidden_only_dir ok_env) "/models/m" ""
           0%Z initial_state); reflexivity.
Defined.

Lemma CreateBackend_artifact_map_complete_witness :
  let E := env_of_dir "/models/m" mixed_dir ok_env in
  let m : ArtifactMap :=
    <[ "weights" := Localized "/tmp/models/m/weights" ]>
      {[ "model.onnx" := Inline "onnx" ]} in
  GetDirectoryFiles E "/models/m" true = (Success, ["model.onnx"]) /\
  GetDirectorySubdirs E "/models/m" = (Success, ["weights"]) /\
  (forall name, name ∈ ["model.onnx"] -> name ∉ ["weights"]) /\
  artifact_maps
    (emitted initial_state
       (CreateBackend E "/models/m" "" 0%Z initial_state).2) = [m] /\
  (forall f, f ∈ ["model.onnx"] ->
             exists contents, m !! f = Some (Inline contents)) /\
  (forall d, d ∈ ["weights"] -> exists p, m !! d = Some (Localized p)) /\
  (forall k, is_Some (m !! k) -> k ∈ ["model.onnx"] \/ k ∈ ["weights"]) /\
  NoDup (map_to_list m).*1.
Proof.
  cbv zeta.
  assert (Hdisj : forall name : string,
             name ∈ ["model.onnx"] -> name ∉ ["weights"]).
  { intros name Hf Hd. apply list_elem_of_singleton in Hf.
    apply list_elem_of_singleton in Hd. subst name. discriminate Hd. }
  split; [reflexivity|]. split; [reflexivity|]. split; [exact Hdisj|].
  split; [reflexivity|].
  apply (CreateBackend_artifact_map_complete
           (env_of_dir "/models/m" mixed_dir ok_env) "/models/m" "" 0%Z
           initial_state ["model.onnx"] ["weights"]);
    [reflexivity|reflexivity|exact Hdisj|].
  vm_compute. left.
Defined.

(** With more subdirectories than files the call never succeeds and hands
    no artifact map to the backend; when every step it runs succeeds, it
    ends in the out-of-range access to [local_onnx]. *)
Lemma more_subdirs_than_files (E : Env) (path : string)
  (model_config : ModelConfig) (mcc : double) (σ : State)
  (fnames dnames : list string) :
  GetDirectoryFiles E path true = (Success, fnames) ->
  GetDirectorySubdirs E path = (Success, dnames) ->
  length (set_insert_all fnames []) < length (set_insert_all dnames []) ->
  let r := CreateBackend E path model_config mcc σ in
  r.1 <> Returned Success /\
  artifact_maps (emitted σ r.2) = [] /\
  (Forall (eq Success) (statuses (emitted σ r.2)) ->
   r.1 = UndefinedBehaviour).
Proof.
  intros Hf Hd Hlt. cbv zeta.
  run_exits E path model_config mcc σ; try enumeration_failed Hf Hd;
    scanned_as Hf Hd; try lia.
  - split; [discriminate|]. split; [obs_done|]. reflexivity.
  - failed_status st. split; [discriminate|]. split; [obs_done|].
    autorewrite with trace_obs. intros Hall. exfalso.
    apply Forall_app in Hall as [_ Hall].
    apply Forall_app in Hall as [_ Hall].
    apply Forall_app in Hall as [_ Hall].
    apply Forall_app in Hall as [Hall _].
    inversion_clear Hall as [|? ? Hst _]. discriminate Hst.
Qed.

(** In every call the temporary directories allocated are pairwise
    distinct, and the k-th localization goes to the k-th of them: while it
    stays inside the vector, each subdirectory gets a store of its own. *)
Lemma localizations_use_own_stores (E : Env) (path : string)
  (model_config : ModelConfig) (mcc : double) (σ : State) :
  let r := CreateBackend E path model_config mcc σ in
  NoDup (allocations (emitted σ r.2)) /\
  exists k,
    localizations (emitted σ r.2) = take k (allocations (emitted σ r.2)).
Proof.
  cbv zeta. run_exits E path model_config mcc σ;
    try (split; [constructor|exists 0; reflexivity]);
    match goal with
    | H : scanned _ _ _ _ _ ?hs |- _ =>
        assert (Hnd : NoDup hs) by (destruct H as [_ _ ->]; apply NoDup_seq)
    end;
    autorewrite with trace_obs; simpl; rewrite ?app_nil_r;
    (split; [exact Hnd|]).
  - exists (length sl). reflexivity.
  - exists (S (length pre)). symmetry. apply take_S_r. assumption.
  - exists (length sl). reflexivity.
  - exists (length sl). reflexivity.
  - exists (length sl). reflexivity.
  - exists (length sl). reflexivity.
Qed.

(** C1 (the failing input).  For a model directory that holds the single
    subdirectory [weights] and no regular file, the call allocates no
    temporary directory and ends in the out-of-range access
    [local_onnx[0]]: nothing is localized, no artifact map is built and
    [*backend] stays empty. *)
Theorem CreateBackend_subdirectory_without_file :
  let r :=
    CreateBackend (env_of_dir "/models/m" only_weights_dir ok_env)
      "/models/m" "" 0%Z initial_state in
  dir_files true only_weights_dir = [] /\
  dir_subdirs only_weights_dir = ["weights"] /\
  r.1 = UndefinedBehaviour /\
  allocations (trace r.2) = [] /\
  localizations (trace r.2) = [] /\
  artifact_maps (trace r.2) = [] /\
  backend_out r.2 = None.
Proof. cbv zeta. repeat split; reflexivity. Qed.

(** C6 (the failing input).  For a model directory that holds the file
    [model.onnx] and the two subdirectories [adapters] and [weights], the
    scan finds three non-hidden names.  The call allocates one temporary
    directory, localizes [adapters] into it and ends in the out-of-range
    access [local_onnx[1]]: the file is never read, no artifact map is
    built, and [*backend] stays empty, so every name found is omitted. *)
Theorem CreateBackend_omits_names_when_bundles_outnumber_files :
  let E := env_of_dir "/models/m" one_file_two_bundles_dir ok_env in
  let r := CreateBackend E "/models/m" "" 0%Z initial_state in
  GetDirectoryFiles E "/models/m" true = (Success, ["model.onnx"]) /\
  GetDirectorySubdirs E "/models/m" = (Success, ["weights"; "adapters"]) /\
  r.1 = UndefinedBehaviour /\
  allocations (trace r.2) = [0] /\
  localized (trace r.2) = [("/models/m/adapters", 0)] /\
  reads (trace r.2) = [] /\
  artifact_maps (trace r.2) = [] /\
  backend_out r.2 = None.
Proof. cbv zeta. repeat split; reflexivity. Qed.

(** * Further properties *)

(** ** Order and paths of the localizations and the reads *)

Lemma localized_app (t1 t2 : list Event) :
  localized (t1 ++ t2) = localized t1 ++ localized t2.
Proof. apply omap_app. Qed.

Lemma reads_app (t1 t2 : list Event) :
  reads (t1 ++ t2) = reads t1 ++ reads t2.
Proof. apply omap_app. Qed.

Lemma localized_new_events hs : localized (new_events hs) = [].
Proof. apply omap_map_None. reflexivity. Qed.

Lemma localized_delete_events hs : localized (delete_events hs) = [].
Proof. apply omap_map_None. reflexivity. Qed.

Lemma localized_read_events E path fl : localized (read_events E path fl) = [].
Proof. apply omap_map_None. reflexivity. Qed.

Lemma localized_localize_events E path dirs :
  forall hs,
    localized (localize_events E path dirs hs)
    = zip_with (fun d h => (JoinPath E [path; d], h)) dirs hs.
Proof.
  induction dirs as [|d dirs IH]; intros [|h hs]; simpl; try reflexivity.
  unfold localized in *. simpl. f_equal. apply IH.
Qed.

Lemma reads_new_events hs : reads (new_events hs) = [].
Proof. apply omap_map_None. reflexivity. Qed.

Lemma reads_delete_events hs : reads (delete_events hs) = [].
Proof. apply omap_map_None. reflexivity. Qed.

Lemma reads_read_events E path fl :
  reads (read_events E path fl)
  = map (fun f => JoinPath E [path; f]) fl.
Proof.
  unfold reads, read_events. apply omap_map_Some. reflexivity.
Qed.

Lemma reads_localize_events E path dirs :
  forall hs, reads (localize_events E path dirs hs) = [].
Proof.
  induction dirs as [|d dirs IH]; intros [|h hs]; simpl; try reflexivity.
  apply IH.
Qed.

Create Rewrite HintDb trace_paths.
#[export] Hint Rewrite
  localized_app localized_new_events localized_delete_events
  localized_read_events localized_localize_events
  reads_app reads_new_events reads_delete_events
  reads_read_events reads_localize_events
  : trace_paths.

Ltac paths_simpl :=
  autorewrite with trace_obs trace_paths; simpl;
  rewrite ?app_nil_r, <- ?app_assoc; simpl.

Lemma zip_with_snoc {A B C} (f : A -> B -> C) (pre : list A) (d : A) :
  forall (hs : list B) (h : B),
    hs !! length pre = Some h ->
    zip_with f (pre ++ [d]) hs = zip_with f pre hs ++ [f d h].
Proof.
  induction pre as [|x pre IH]; intros [|y hs] h Hh; simpl in *;
    try discriminate.
  - injection Hh as ->. destruct hs; reflexivity.
  - f_equal. apply IH. exact Hh.
Qed.

Lemma take_snoc_middle {A} (pre : list A) (d : A) (post : list A) :
  take (S (length pre)) (pre ++ d :: post) = pre ++ [d].
Proof.
  induction pre as [|x pre IH]; simpl.
  - rewrite take_0. reflexivity.
  - f_equal. exact IH.
Qed.

(** Names the localizations of the trace in the goal as those of the first
    [k] subdirectories. *)
Ltac localized_prefix E path k :=
  exists k;
  match goal with
  | |- context [zip_with _ (take k ?sl) ?hs] =>
      match goal with
      | |- context [localized ?t] =>
          assert (Hloc : localized t
                         = zip_with (fun d h => (JoinPath E [path; d], h))
                             (take k sl) hs)
      end
  end.

Ltac localized_count Hloc :=
  rewrite Hloc, length_zip_with, length_take, length_seq; lia.

(** X1.  When both enumerations succeed, the subdirectories are localized
    in strictly increasing lexicographic order of their names, whatever
    order the enumeration reported them in: the localizations of a call are
    exactly [k] in number, those of the first [k] names of the sorted set,
    each from [JoinPath {path, name}] and the i-th into the i-th store
    allocated, with [k] at most the number of stores.  Every subdirectory
    has been localized ([k] is their number) when the call succeeds, and
    before any file is read. *)
Theorem CreateBackend_localizes_in_order (E : Env) (path : string)
  (model_config : ModelConfig) (mcc : double) (σ : State)
  (fnames dnames : list string) :
  GetDirectoryFiles E path true = (Success, fnames) ->
  GetDirectorySubdirs E path = (Success, dnames) ->
  let r := CreateBackend E path model_config mcc σ in
  let onnx_subdirs := set_insert_all dnames [] in
  let stores := seq (next_handle σ) (length (set_insert_all fnames [])) in
  StronglySorted String_as_OT.lt onnx_subdirs /\
  (forall d, d ∈ onnx_subdirs <-> d ∈ dnames) /\
  exists k,
    k <= length onnx_subdirs /\
    k <= length stores /\
    localized (emitted σ r.2)
    = zip_with (fun d h => (JoinPath E [path; d], h))
        (take k onnx_subdirs) stores /\
    length (localized (emitted σ r.2)) = k /\
    (r.1 = Returned Success -> k = length onnx_subdirs) /\
    (reads (emitted σ r.2) <> [] -> k = length onnx_subdirs).
Proof.
  intros Hf Hd. cbv zeta.
  split; [apply set_insert_all_sorted|].
  split; [intros d; apply set_insert_all_elem|].
  run_exits E path model_config mcc σ; try enumeration_failed Hf Hd;
    scanned_as Hf Hd; subst hs.
  - localized_prefix E path (length (set_insert_all fnames [])).
    { paths_simpl. rewrite zip_with_take_l' by (rewrite length_seq; lia).
      reflexivity. }
    split; [lia|]. split; [rewrite length_seq; lia|].
    split; [exact Hloc|]. split; [localized_count Hloc|].
    split; [discriminate|]. paths_simpl. intros Hne. contradiction.
  - failed_status st.
    match goal with
    | H : _ !! length pre = Some _ |- _ =>
        pose proof (lookup_lt_Some _ _ _ H) as Hlt
    end.
    rewrite length_seq in Hlt.
    localized_prefix E path (S (length pre)).
    { match goal with H : set_insert_all dnames [] = _ |- _ => rewrite H end.
      rewrite take_snoc_middle. paths_simpl.
      rewrite (zip_with_snoc (fun d h => (JoinPath E [path; d], h))
                 pre d _ h) by assumption.
      reflexivity. }
    assert (Hlen : S (length pre) <= length (set_insert_all dnames [])).
    { match goal with H : set_insert_all dnames [] = _ |- _ => rewrite H end.
      rewrite length_app. simpl. lia. }
    split; [exact Hlen|]. split; [rewrite length_seq; lia|].
    split; [exact Hloc|]. split; [localized_count Hloc|].
    split; [discriminate|]. paths_simpl. intros Hne. contradiction.
  - localized_prefix E path (length (set_insert_all dnames [])).
    { paths_simpl. rewrite take_ge by lia. reflexivity. }
    split; [lia|]. split; [rewrite length_seq; lia|].
    split; [exact Hloc|]. split; [localized_count Hloc|]. split; reflexivity.
  - localized_prefix E path (length (set_insert_all dnames [])).
    { paths_simpl. rewrite take_ge by lia. reflexivity. }
    split; [lia|]. split; [rewrite length_seq; lia|].
    split; [exact Hloc|]. split; [localized_count Hloc|]. split; reflexivity.
  - localized_prefix E path (length (set_insert_all dnames [])).
    { paths_simpl. rewrite take_ge by lia. reflexivity. }
    split; [lia|]. split; [rewrite length_seq; lia|].
    split; [exact Hloc|]. split; [localized_count Hloc|]. split; reflexivity.
  - localized_prefix E path (length (set_insert_all dnames [])).
    { paths_simpl. rewrite take_ge by lia. reflexivity. }
    split; [lia|]. split; [rewrite length_seq; lia|].
    split; [exact Hloc|]. split; [localized_count Hloc|]. split; reflexivity.
Qed.

(** X2.  When both enumerations succeed, the files are read in strictly
    increasing lexicographic order of their names: the reads of a call are
    those of the first [j] names of the sorted set, each from
    [JoinPath {path, name}] and each once.  Every file has been read when
    the call succeeds and whenever an artifact map reaches the backend. *)
Theorem CreateBackend_reads_in_order (E : Env) (path : string)
  (model_config : ModelConfig) (mcc : double) (σ : State)
  (fnames dnames : list string) :
  GetDirectoryFiles E path true = (Success, fnames) ->
  GetDirectorySubdirs E path = (Success, dnames) ->
  let r := CreateBackend E path model_config mcc σ in
  let onnx_files := set_insert_all fnames [] in
  StronglySorted String_as_OT.lt onnx_files /\
  (forall f, f ∈ onnx_files <-> f ∈ fnames) /\
  exists j,
    j <= length onnx_files /\
    reads (emitted σ r.2)
    = map (fun f => JoinPath E [path; f]) (take j onnx_files) /\
    (r.1 = Returned Success -> j = length onnx_files) /\
    (artifact_maps (emitted σ r.2) <> [] -> j = length onnx_files).
Proof.
  intros Hf Hd. cbv zeta.
  split; [apply set_insert_all_sorted|].
  split; [intros f; apply set_insert_all_elem|].
  run_exits E path model_config mcc σ; try enumeration_failed Hf Hd;
    scanned_as Hf Hd; subst hs.
  - exists 0. split; [lia|]. split; [paths_simpl; reflexivity|].
    split; [discriminate|]. paths_simpl. intros Hne. contradiction.
  - failed_status st. exists 0. split; [lia|].
    split; [paths_simpl; reflexivity|].
    split; [discriminate|]. paths_simpl. intros Hne. contradiction.
  - failed_status st. exists (S (length pre)).
    match goal with H : set_insert_all fnames [] = _ |- _ => rewrite H end.
    rewrite take_snoc_middle. split; [rewrite length_app; simpl; lia|].
    split.
    + paths_simpl. rewrite map_app. reflexivity.
    + split; [discriminate|]. paths_simpl. intros Hne. contradiction.
  - exists (length (set_insert_all fnames [])).
    split; [lia|]. rewrite take_ge by lia.
    split; [paths_simpl; reflexivity|]. split; reflexivity.
  - exists (length (set_insert_all fnames [])).
    split; [lia|]. rewrite take_ge by lia.
    split; [paths_simpl; reflexivity|]. split; reflexivity.
  - exists (length (set_insert_all fnames [])).
    split; [lia|]. rewrite take_ge by lia.
    split; [paths_simpl; reflexivity|]. split; reflexivity.
Qed.

(** ** What a call touches, and the exact artifact map *)

Lemma kept_refl (hs : list nat) (σ : State) : kept hs σ σ.
Proof. unfold kept. auto. Qed.

Lemma kept_trans (hs : list nat) (σ1 σ2 σ3 : State) :
  kept hs σ1 σ2 -> kept hs σ2 σ3 -> kept hs σ1 σ3.
Proof.
  unfold kept. intros (Hf1 & Hn1 & Hl1) (Hf2 & Hn2 & Hl2).
  repeat split; try congruence.
  intros h Hh. rewrite Hl2, Hl1 by assumption. reflexivity.
Qed.

Lemma allocate_body_run (E : Env) (s : nat) (v : list (option nat))
  (σ : State) :
  allocate_body E s v σ
  = (Ok (<[s := Some (next_handle σ)]> v),
     log (EvNewTemporaryDirectory (next_handle σ))
       (set_live
          (<[next_handle σ :=
               TemporaryDirectory_ctor E (next_handle σ) ""]> (live σ))
          (set_next_handle (S (next_handle σ)) σ))).
Proof. reflexivity. Qed.

Lemma allocate_loop_objects (E : Env) (n : nat) :
  forall (k : nat) (v : list (option nat)) (σ : State)
         (r : Res (list (option nat))) (σ' : State),
    for_each (seq k n) (allocate_body E) v σ = (r, σ') ->
    factory_out σ' = factory_out σ /\
    next_handle σ' = next_handle σ + n /\
    (forall h, h ∉ seq (next_handle σ) n -> live σ' !! h = live σ !! h) /\
    (forall h, h ∈ seq (next_handle σ) n ->
               live σ' !! h = Some (TemporaryDirectory_ctor E h "")).
Proof.
  induction n as [|n IH]; intros k v σ r σ' Hrun.
  - simpl in Hrun. unfold ret in Hrun. injection Hrun as _ <-.
    repeat split; auto. intros h Hh. inversion Hh.
  - simpl seq in Hrun. rewrite for_each_cons, allocate_body_run in Hrun.
    apply IH in Hrun as (Hf & Hn & Hout & Hin). simpl in Hf, Hn, Hout, Hin.
    repeat split.
    + exact Hf.
    + rewrite Hn. lia.
    + intros h Hh. simpl in Hh. apply not_elem_of_cons in Hh as [Hne Hh].
      rewrite Hout by exact Hh. apply lookup_insert_ne. congruence.
    + intros h Hh. simpl in Hh. apply elem_of_cons in Hh as [->|Hh].
      * rewrite Hout; [apply lookup_insert_eq|].
        rewrite elem_of_seq. lia.
      * apply Hin. exact Hh.
Qed.

Lemma destroy_vector_kept (hs : list nat) :
  forall σ : State, kept hs σ (destroy_vector (map Some hs) σ).
Proof.
  induction hs as [|h hs IH]; intros σ; [apply kept_refl|].
  change (destroy_vector (map Some (h :: hs)) σ)
    with (destroy_vector (map Some hs) (release h σ)).
  destruct (IH (release h σ)) as (Hf & Hn & Hl).
  repeat split.
  - rewrite Hf. reflexivity.
  - rewrite Hn. reflexivity.
  - intros h' Hh'. apply not_elem_of_cons in Hh' as [Hne Hh'].
    rewrite Hl by exact Hh'. simpl. apply lookup_delete_ne. congruence.
Qed.

Lemma localize_loop_exact (E : Env) (path : string)
  (local_onnx : list (option nat)) (dirs : list string) :
  forall (done hs : list nat) (i : nat) (m : ArtifactMap) (σ : State)
         (r : Res (nat * ArtifactMap)) (σ' : State),
    local_onnx = map Some (done ++ hs) -> length done = i -> NoDup hs ->
    (forall h, h ∈ hs ->
               live σ !! h = Some (TemporaryDirectory_ctor E h "")) ->
    for_each dirs (localize_body E path local_onnx) (i, m) σ = (r, σ') ->
    kept hs σ σ' /\
    (forall i' m', r = Ok (i', m') -> m' = localized_map E path dirs hs m).
Proof.
  induction dirs as [|d dirs IH]; intros done hs i m σ r σ' Hv Hi Hnd Hlive Hrun.
  - simpl in Hrun. unfold ret in Hrun. injection Hrun as <- <-.
    split; [apply kept_refl|]. intros i' m' [= _ <-]. reflexivity.
  - rewrite for_each_cons, localize_body_run in Hrun.
    destruct hs as [|h hs].
    + assert (Hnone : local_onnx !! i = None).
      { apply lookup_ge_None. rewrite Hv, length_map, app_nil_r. lia. }
      rewrite Hnone in Hrun. injection Hrun as <- <-.
      split; [apply kept_refl|]. discriminate.
    + assert (Hsome : local_onnx !! i = Some (Some h)).
      { rewrite Hv, list_lookup_fmap, lookup_app_r by lia.
        rewrite Hi, Nat.sub_diag. reflexivity. }
      rewrite Hsome, (Hlive h) in Hrun by left.
      cbv zeta in Hrun.
      apply NoDup_cons in Hnd as [Hh Hnd].
      set (obj := LocalizeFileFolder E (JoinPath E [path; d])
                    (TemporaryDirectory_ctor E h "")) in *.
      set (σ1 := log (EvLocalizeFileFolder (JoinPath E [path; d]) h obj.1)
                   (set_live (<[h:=obj.2]> (live σ)) σ)) in *.
      assert (Hk1 : kept (h :: hs) σ σ1).
      { repeat split. intros h' Hh'. apply not_elem_of_cons in Hh' as [Hne _].
        simpl. apply lookup_insert_ne. congruence. }
      destruct (IsOk obj.1).
      * apply (IH (done ++ [h]) hs (S i)) in Hrun as [(Hf & Hn & Hl) Hm].
        -- split.
           ++ destruct Hk1 as (Hf1 & Hn1 & Hl1). repeat split; try congruence.
              intros h' Hh'. rewrite Hl, Hl1; [reflexivity|exact Hh'|].
              apply not_elem_of_cons in Hh' as [_ Hh']. exact Hh'.
           ++ intros i' m' Hr. simpl. apply (Hm i'). exact Hr.
        -- rewrite <- app_assoc. exact Hv.
        -- rewrite length_app. simpl. lia.
        -- exact Hnd.
        -- intros h' Hh'. simpl. rewrite lookup_insert_ne.
           ++ apply Hlive. right. exact Hh'.
           ++ intros ->. contradiction.
      * injection Hrun as <- <-. split; [exact Hk1|]. discriminate.
Qed.

Lemma read_loop_exact (E : Env) (path : string) (files : list string) :
  forall (m : ArtifactMap) (σ : State) (r : Res ArtifactMap) (σ' : State),
    for_each files (read_body E path) m σ = (r, σ') ->
    kept [] σ σ' /\
    (forall m', r = Ok m' -> m' = read_map E path files m).
Proof.
  induction files as [|f files IH]; intros m σ r σ' Hrun.
  - simpl in Hrun. unfold ret in Hrun. injection Hrun as <- <-.
    split; [apply kept_refl|]. intros m' [= <-]. reflexivity.
  - rewrite for_each_cons, read_body_run in Hrun. cbv zeta in Hrun.
    destruct (IsOk (ReadTextFile E (JoinPath E [path; f])).1).
    + apply IH in Hrun as [(Hf & Hn & Hl) Hm]. split.
      * repeat split; assumption.
      * intros m' Hr. simpl. apply Hm. exact Hr.
    + injection Hrun as <- <-. split; [|discriminate].
      repeat split.
Qed.

Lemma kept_weaken (hs : list nat) (σ σ' : State) :
  kept [] σ σ' -> kept hs σ σ'.
Proof.
  intros (Hf & Hn & Hl). repeat split; try assumption.
  intros h _. apply Hl. apply not_elem_of_nil.
Qed.

(** The state a call leaves, in terms of the stores it allocated, and the
    artifact map it hands to the backend, in terms of the reference
    functions. *)
Lemma CreateBackend_effect (E : Env) (path : string)
  (model_config : ModelConfig) (mcc : double) (σ σ' : State) (out : Outcome) :
  CreateBackend E path model_config mcc σ = (out, σ') ->
  factory_out σ' = factory_out σ /\
  next_handle σ' = next_handle σ + length (allocations (emitted σ σ')) /\
  (forall h, h ∉ allocations (emitted σ σ') -> live σ' !! h = live σ !! h) /\
  allocations (emitted σ σ')
  = seq (next_handle σ) (length (allocations (emitted σ σ'))) /\
  (forall m,
      m ∈ artifact_maps (emitted σ σ') ->
      (GetDirectoryFiles E path true).1 = Success /\
      (GetDirectorySubdirs E path).1 = Success /\
      m = read_map E path
            (set_insert_all (GetDirectoryFiles E path true).2 [])
            (localized_map E path
               (set_insert_all (GetDirectorySubdirs E path).2 [])
               (seq (next_handle σ)
                  (length
                     (set_insert_all (GetDirectoryFiles E path true).2 [])))
               ∅)).
Proof.
  unfold CreateBackend, function_body.
  rewrite bind_run. unfold call_GetDirectoryFiles at 1.
  destruct (GetDirectoryFiles E path true) as [stf fnames] eqn:Hf.
  rewrite bind_run. unfold RETURN_IF_ERROR at 1.
  destruct stf as [|kf mf]; simpl IsOk; cbv iota.
  2:{ intros [= <- <-]. erewrite emitted_app by reflexivity. simpl.
      rewrite Nat.add_0_r.
      repeat split; try reflexivity;
        match goal with H : _ ∈ _ |- _ => inversion H end. }
  rewrite bind_run. unfold call_GetDirectorySubdirs at 1.
  destruct (GetDirectorySubdirs E path) as [std dnames] eqn:Hd.
  rewrite bind_run. unfold RETURN_IF_ERROR at 1.
  destruct std as [|kd md]; simpl IsOk; cbv iota.
  2:{ intros [= <- <-].
      erewrite emitted_app by (simpl; rewrite <- app_assoc; reflexivity).
      simpl. rewrite Nat.add_0_r.
      repeat split; try reflexivity;
        match goal with H : _ ∈ _ |- _ => inversion H end. }
  set (fl := set_insert_all fnames []).
  set (sl := set_insert_all dnames []).
  set (σ2 := log (EvGetDirectorySubdirs path Success)
               (log (EvGetDirectoryFiles path true Success) σ)).
  rewrite bind_run.
  destruct (allocate_local_onnx_run E (length fl) σ2)
    as (σ3 & Halloc & Htr3 & Hb3 & Hlive3).
  rewrite Halloc.
  pose proof (allocate_loop_objects E (length fl) 0 _ σ2 _ σ3 Halloc)
    as (Hf3 & Hn3 & Hl3 & Hobj3).
  set (hs := seq (next_handle σ2) (length fl)) in *.
  assert (Htr3' : trace σ3 = trace σ ++ scan_events path ++ new_events hs).
  { rewrite Htr3. simpl. rewrite <- !app_assoc. reflexivity. }
  assert (Hlen : length hs = length fl) by apply length_seq.
  change (factory_out σ2) with (factory_out σ) in Hf3.
  change (next_handle σ2) with (next_handle σ) in Hn3.
  change (live σ2) with (live σ) in Hl3.
  assert (Hhs : hs = seq (next_handle σ) (length fl)) by reflexivity.
  clearbody hs σ2. clear Htr3 Hb3.
  (* what remains to show once the run after the allocation is known *)
  assert (Hfinish :
            forall (s : State) (T : list Event),
              kept hs σ3 s ->
              trace s = trace σ ++ T ->
              allocations T = hs ->
              (forall m,
                  m ∈ artifact_maps T ->
                  m = read_map E path fl (localized_map E path sl hs ∅)) ->
              factory_out s = factory_out σ /\
              next_handle s = next_handle σ + length (allocations (emitted σ s))
              /\ (forall h, h ∉ allocations (emitted σ s) ->
                            live s !! h = live σ !! h)
              /\ allocations (emitted σ s)
                 = seq (next_handle σ) (length (allocations (emitted σ s)))
              /\ (forall m,
                     m ∈ artifact_maps (emitted σ s) ->
                     Success = Success /\
                     Success = Success /\
                     m = read_map E path fl
                           (localized_map E path sl
                              (seq (next_handle σ) (length fl)) ∅))).
  { intros s T (Hfs & Hns & Hls) HT Hal Hmaps.
    rewrite (emitted_app σ s T HT), Hal.
    split; [congruence|]. split; [rewrite Hns, Hn3, Hlen; reflexivity|].
    split; [intros h Hh; rewrite Hls, Hl3 by exact Hh; reflexivity|].
    split; [rewrite Hlen; exact Hhs|].
    intros m Hm. split; [reflexivity|]. split; [reflexivity|].
    specialize (Hmaps m Hm). rewrite Hhs in Hmaps. exact Hmaps. }
  cbn [fst snd].
  unfold at_scope_exit. rewrite bind_run. unfold localize_subdirs.
  pose proof (localize_loop E path (map Some hs) sl [] hs 0 ∅ σ3
                eq_refl eq_refl Hlive3) as Hloc.
  assert (Hnd : NoDup hs) by (rewrite Hhs; apply NoDup_seq).
  destruct (for_each sl (localize_body E path (map Some hs)) (0, ∅) σ3)
    as [r4 σ4] eqn:Hloop.
  destruct (localize_loop_exact E path (map Some hs) sl [] hs 0 ∅ σ3 r4 σ4
              eq_refl eq_refl Hnd Hobj3 Hloop) as [Hk4 Hm4].
  destruct r4 as [[i m1]|st|].
  - destruct Hloc as (Hle & Htr4 & _ & _).
    specialize (Hm4 i m1 eq_refl).
    rewrite bind_run. unfold read_files.
    pose proof (read_loop E path fl m1 σ4) as Hread.
    destruct (for_each fl (read_body E path) m1 σ4) as [r5 σ5] eqn:Hrloop.
    destruct (read_loop_exact E path fl m1 σ4 r5 σ5 Hrloop) as [Hk5 Hm5].
    apply (kept_weaken hs) in Hk5.
    pose proof (kept_trans hs _ _ _ Hk4 Hk5) as Hk45.
    destruct r5 as [m2|st|]; [| |contradiction].
    + destruct Hread as (Htr5 & _ & _).
      specialize (Hm5 m2 eq_refl).
      rewrite construct_run. cbv zeta.
      destruct (init_status E path model_config mcc) as [|ki mi] eqn:Hinit.
      * destruct (OnnxBackend_CreateExecutionContexts E
                    (initialized_backend E path model_config mcc) m2)
          as [|kc mc] eqn:Hcec;
          intros [= <- <-];
          (eapply Hfinish;
           [ eapply kept_trans; [exact Hk45|];
             eapply kept_trans; [|apply destroy_vector_kept];
             repeat split
           | match goal with
             | |- context [destroy_vector _ ?s] =>
                 rewrite (proj1 (destroy_vector_run hs s))
             end;
             simpl trace; rewrite Htr5, Htr4, Htr3', <- !app_assoc;
             reflexivity
           | obs_done
           | autorewrite with trace_obs; simpl;
             intros m Hm; apply list_elem_of_singleton in Hm;
             subst m; rewrite Hm5, Hm4; reflexivity ]).
      * intros [= <- <-].
        eapply Hfinish;
          [ eapply kept_trans; [exact Hk45|];
            eapply kept_trans; [|apply destroy_vector_kept];
            repeat split
          | match goal with
            | |- context [destroy_vector _ ?s] =>
                rewrite (proj1 (destroy_vector_run hs s))
            end;
            simpl trace; rewrite Htr5, Htr4, Htr3', <- !app_assoc;
            reflexivity
          | obs_done
          | autorewrite with trace_obs; simpl;
            intros m Hm; inversion Hm ].
    + destruct Hread as (_ & _ & pre & f & post & Hfl & Htr5).
      intros [= <- <-].
      eapply Hfinish;
        [ eapply kept_trans; [exact Hk45|apply destroy_vector_kept]
        | rewrite (proj1 (destroy_vector_run hs σ5));
          rewrite Htr5, Htr4, Htr3', <- !app_assoc; reflexivity
        | obs_done
        | autorewrite with trace_obs; simpl;
          intros m Hm; inversion Hm ].
  - destruct Hloc as (_ & _ & pre & d & post & h & Hsl & Hh & Htr4).
    intros [= <- <-].
    eapply Hfinish;
      [ eapply kept_trans; [exact Hk4|apply destroy_vector_kept]
      | rewrite (proj1 (destroy_vector_run hs σ4));
        rewrite Htr4, Htr3', <- !app_assoc; reflexivity
      | obs_done
      | autorewrite with trace_obs; simpl;
        intros m Hm; inversion Hm ].
  - destruct Hloc as (_ & _ & Htr4).
    intros [= <- <-].
    eapply Hfinish;
      [ exact Hk4
      | rewrite Htr4, Htr3', <- !app_assoc; reflexivity
      | obs_done
      | autorewrite with trace_obs; simpl;
        intros m Hm; inversion Hm ].
Qed.

(** ** Lookups in the reference maps *)

Lemma read_map_keeps (E : Env) (path : string) (files : list string) :
  forall (m : ArtifactMap) (k : string) (v : bool * string),
    m !! k = Some v -> read_map E path files m !! k = Some v.
Proof.
  induction files as [|f files IH]; intros m k v Hk; simpl; [exact Hk|].
  apply IH, emplace_keeps. exact Hk.
Qed.

Lemma localized_map_keeps (E : Env) (path : string) (dirs : list string) :
  forall (hs : list nat) (m : ArtifactMap) (k : string) (v : bool * string),
    m !! k = Some v -> localized_map E path dirs hs m !! k = Some v.
Proof.
  induction dirs as [|d dirs IH]; intros [|h hs] m k v Hk; simpl;
    try exact Hk.
  apply IH, emplace_keeps. exact Hk.
Qed.

Lemma emplace_other (k k' : string) (v : bool * string) (m : ArtifactMap) :
  k <> k' -> m !! k' = None -> emplace k v m !! k' = None.
Proof.
  intros Hne Hk. unfold emplace. destruct (m !! k); [exact Hk|].
  rewrite lookup_insert_ne by exact Hne. exact Hk.
Qed.

Lemma localized_map_lookup (E : Env) (path : string) (dirs : list string) :
  forall (hs : list nat) (m : ArtifactMap) (k : nat) (d : string) (h : nat),
    NoDup dirs -> dirs !! k = Some d -> hs !! k = Some h ->
    m !! d = None ->
    localized_map E path dirs hs m !! d
    = Some (Localized (localized_path E path d h)).
Proof.
  induction dirs as [|d0 dirs IH]; intros [|h0 hs] m k d h Hnd Hd Hh Hm;
    try discriminate.
  apply NoDup_cons in Hnd as [Hd0 Hnd]. destruct k as [|k]; simpl in *.
  - injection Hd as ->. injection Hh as ->.
    apply localized_map_keeps, emplace_lookup_same. exact Hm.
  - apply (IH hs _ k); try assumption.
    apply emplace_other; [|exact Hm].
    intros ->. apply Hd0. eapply list_elem_of_lookup_2. exact Hd.
Qed.

(** A map reaches the backend only when the subdirectories are no more
    than the stores. *)
Lemma handed_map_fits (E : Env) (path : string)
  (model_config : ModelConfig) (mcc : double) (σ : State)
  (fnames dnames : list string) :
  GetDirectoryFiles E path true = (Success, fnames) ->
  GetDirectorySubdirs E path = (Success, dnames) ->
  artifact_maps (emitted σ (CreateBackend E path model_config mcc σ).2)
  <> [] ->
  length (set_insert_all dnames []) <= length (set_insert_all fnames []) /\
  reads (emitted σ (CreateBackend E path model_config mcc σ).2)
  = map (fun f => JoinPath E [path; f]) (set_insert_all fnames []).
Proof.
  intros Hf Hd.
  run_exits E path model_config mcc σ; try enumeration_failed Hf Hd;
    scanned_as Hf Hd; paths_simpl; intros Hne; try contradiction;
    (split; [assumption|reflexivity]).
Qed.

(** X3.  Whatever the collaborators report, the inline entry of a file that
    is not also a subdirectory name is exactly the string [ReadTextFile]
    produced for [JoinPath {path, name}]: [CreateBackend] adds, drops and
    changes no byte of it. *)
Theorem CreateBackend_inline_is_what_was_read (E : Env) (path : string)
  (model_config : ModelConfig) (mcc : double) (σ : State)
  (fnames dnames : list string) (m : ArtifactMap) (f : string) :
  GetDirectoryFiles E path true = (Success, fnames) ->
  GetDirectorySubdirs E path = (Success, dnames) ->
  m ∈ artifact_maps
        (emitted σ (CreateBackend E path model_config mcc σ).2) ->
  f ∈ fnames -> f ∉ dnames ->
  m !! f = Some (Inline (ReadTextFile E (JoinPath E [path; f])).2).
Proof.
  intros Hf Hd Hm Hin Hnot.
  apply handed_map_resolved in Hm
    as (fnames' & dnames' & Hf' & Hd' & _ & Hfile & _).
  rewrite Hf in Hf'. rewrite Hd in Hd'.
  injection Hf' as <-. injection Hd' as <-.
  apply Hfile.
  - apply set_insert_all_elem. exact Hin.
  - rewrite set_insert_all_elem. exact Hnot.
Qed.

(** X4.  The entry of the k-th subdirectory (in sorted order) is the
    localized path read from the k-th store after [LocalizeFileFolder] has
    run on it: the [model_path] the collaborator left in the store that was
    freshly constructed with the empty string, and not the path the store
    had before. *)
Theorem CreateBackend_localized_is_store_path (E : Env) (path : string)
  (model_config : ModelConfig) (mcc : double) (σ : State)
  (fnames dnames : list string) (m : ArtifactMap) (k : nat) (d : string) :
  GetDirectoryFiles E path true = (Success, fnames) ->
  GetDirectorySubdirs E path = (Success, dnames) ->
  m ∈ artifact_maps
        (emitted σ (CreateBackend E path model_config mcc σ).2) ->
  set_insert_all dnames [] !! k = Some d ->
  m !! d
  = Some (Localized
            (model_path
               (LocalizeFileFolder E (JoinPath E [path; d])
                  (TemporaryDirectory_ctor E (next_handle σ + k) "")).2)).
Proof.
  intros Hf Hd Hm Hk.
  destruct (handed_map_fits E path model_config mcc σ fnames dnames Hf Hd)
    as [Hfit _].
  { intros Hnil. rewrite Hnil in Hm. inversion Hm. }
  destruct (CreateBackend E path model_config mcc σ) as [out σ'] eqn:Hrun.
  apply CreateBackend_effect in Hrun as (_ & _ & _ & _ & Hmap).
  cbn [fst snd] in *. apply Hmap in Hm as (_ & _ & ->).
  rewrite Hf, Hd. cbn [fst snd].
  apply read_map_keeps.
  apply (localized_map_lookup E path _ _ _ k d (next_handle σ + k)).
  - apply set_insert_all_NoDup.
  - exact Hk.
  - apply lookup_seq_lt. apply lookup_lt_Some in Hk. lia.
  - apply lookup_empty.
Qed.

(** X5.  When a name is reported both as a regular file and as a
    subdirectory, the subdirectory wins: the entry under that name is the
    localized one ([emplace] does not overwrite), although the file of that
    name has been read as well. *)
Theorem CreateBackend_subdirectory_wins (E : Env) (path : string)
  (model_config : ModelConfig) (mcc : double) (σ : State)
  (fnames dnames : list string) (m : ArtifactMap) (name : string) :
  GetDirectoryFiles E path true = (Success, fnames) ->
  GetDirectorySubdirs E path = (Success, dnames) ->
  m ∈ artifact_maps
        (emitted σ (CreateBackend E path model_config mcc σ).2) ->
  name ∈ fnames -> name ∈ dnames ->
  (exists p, m !! name = Some (Localized p)) /\
  (forall contents, m !! name <> Some (Inline contents)) /\
  JoinPath E [path; name]
  ∈ reads (emitted σ (CreateBackend E path model_config mcc σ).2).
Proof.
  intros Hf Hd Hm Hfile Hdir.
  destruct (handed_map_fits E path model_config mcc σ fnames dnames Hf Hd)
    as [_ Hreads].
  { intros Hnil. rewrite Hnil in Hm. inversion Hm. }
  apply handed_map_resolved in Hm
    as (fnames' & dnames' & Hf' & Hd' & Hsub & _ & _).
  rewrite Hf in Hf'. rewrite Hd in Hd'.
  injection Hf' as <-. injection Hd' as <-.
  destruct (Hsub name) as [p Hp]; [apply set_insert_all_elem; exact Hdir|].
  split; [eauto|]. split.
  - intros contents Hc. rewrite Hp in Hc. discriminate Hc.
  - rewrite Hreads.
    apply (list_elem_of_fmap_2 (fun f => JoinPath E [path; f])).
    apply set_insert_all_elem. exact Hfile.
Qed.

(** ** The footprint of a call *)

Lemma returned_stores_gone (E : Env) (path : string)
  (model_config : ModelConfig) (mcc : double) (σ : State) (h : nat) :
  let r := CreateBackend E path model_config mcc σ in
  h ∈ allocations (emitted σ r.2) ->
  match r.1 with
  | Returned _ => live r.2 !! h = None
  | UndefinedBehaviour => True
  end.
Proof.
  cbv zeta. run_exits E path model_config mcc σ;
    autorewrite with trace_obs; simpl; rewrite ?app_nil_r; intros Hh;
    try exact I; try (inversion Hh; fail);
    try (match goal with H : abandoned _ _ _ |- _ => apply H; exact Hh end).
  match goal with H : forall h, h ∈ _ -> _ = None |- _ => apply H end.
  exact Hh.
Qed.

Lemma CreateBackend_footprint (E : Env) (path : string)
  (model_config : ModelConfig) (mcc : double) (σ : State) :
  allocator_ahead σ ->
  let r := CreateBackend E path model_config mcc σ in
  (forall h, h ∉ allocations (emitted σ r.2) ->
             live r.2 !! h = live σ !! h) /\
  (forall h, h ∈ allocations (emitted σ r.2) -> live σ !! h = None).
Proof.
  intros Hwf. cbv zeta.
  destruct (CreateBackend E path model_config mcc σ) as [out σ'] eqn:Hrun.
  apply CreateBackend_effect in Hrun as (_ & Hn & Hl & Hal & _).
  cbn [fst snd]. split; [exact Hl|].
  intros h Hh. rewrite Hal in Hh. apply elem_of_seq in Hh.
  destruct (live σ !! h) as [obj|] eqn:Hobj; [|reflexivity].
  assert (h < next_handle σ) by (apply Hwf; eauto). lia.
Qed.

(** X7.  Whenever a call returns, with success or with any error, the
    temporary directories alive after it are exactly those alive before
    it: every store the call allocated has been released and no other one
    was released. *)
Theorem CreateBackend_leaks_no_store (E : Env) (path : string)
  (model_config : ModelConfig) (mcc : double) (σ : State) (st : Status) :
  allocator_ahead σ ->
  (CreateBackend E path model_config mcc σ).1 = Returned st ->
  live (CreateBackend E path model_config mcc σ).2 = live σ.
Proof.
  intros Hwf Hret.
  pose proof (returned_stores_gone E path model_config mcc σ) as Hgone.
  destruct (CreateBackend_footprint E path model_config
              mcc σ Hwf) as [Hl Hfresh].
  cbv zeta in Hgone. rewrite Hret in Hgone.
  apply map_eq. intros h.
  destruct (decide
              (h ∈ allocations
                     (emitted σ
                        (CreateBackend E path model_config mcc σ).2)))
    as [Hh|Hh].
  - rewrite (Hgone h Hh). symmetry. apply Hfresh. exact Hh.
  - apply Hl. exact Hh.
Qed.

Lemma no_loader_event_map {A} (g : A -> Event) (l : list A) :
  (forall x, is_loader_event (g x) = false) ->
  Forall (fun ev => is_loader_event ev = false) (map g l).
Proof. intros H. apply Forall_map, Forall_forall. intros x _. apply H. Qed.

Lemma no_loader_event_localize (E : Env) (path : string)
  (dirs : list string) :
  forall hs,
    Forall (fun ev => is_loader_event ev = false)
      (localize_events E path dirs hs).
Proof.
  induction dirs as [|d dirs IH]; intros [|h hs]; simpl; constructor;
    [reflexivity|apply IH].
Qed.

Ltac no_loader :=
  repeat first
    [ apply Forall_app; split
    | apply Forall_cons; split; [reflexivity|]
    | apply Forall_nil_2
    | apply no_loader_event_localize
    | apply no_loader_event_map; reflexivity ].

(** X8.  [CreateBackend] never uses the runtime loader and never assigns
    the factory: in every execution it calls neither [OnnxLoader::Init] nor
    [OnnxLoader::Stop], and [*factory] holds afterwards what it held
    before. *)
Theorem CreateBackend_leaves_loader_alone (E : Env) (path : string)
  (model_config : ModelConfig) (mcc : double) (σ : State) :
  let r := CreateBackend E path model_config mcc σ in
  Forall (fun ev => is_loader_event ev = false) (emitted σ r.2) /\
  factory_out r.2 = factory_out σ.
Proof.
  cbv zeta. split.
  - run_exits E path model_config mcc σ; unfold scan_events, new_events,
      delete_events, read_events, init_event; no_loader.
  - destruct (CreateBackend E path model_config mcc σ) as [out σ'] eqn:Hrun.
    apply CreateBackend_effect in Hrun as (Hfac & _). exact Hfac.
Qed.

(** ** The factory across calls *)

(** X10.  A successful [Create] stops the loader exactly when [*factory]
    already held a factory: moving the new factory in destroys the old one,
    whose destructor calls [OnnxLoader::Stop] after the new [Init].  So two
    successful calls into the same, initially empty, [*factory] emit
    [Init], [Init], [Stop] and leave the second factory in place. *)
Theorem Create_into_occupied_factory_stops_loader (E : Env)
  (config1 config2 : BackendConfig) (σ : State) :
  OnnxLoader_Init E = Success ->
  let r := Create E config2 σ in
  let r' := Create E config2 (Create E config1 σ).2 in
  emitted σ r.2
  = EvLoaderInit Success
      :: match factory_out σ with
         | Some _ => [EvLoaderStop]
         | None => []
         end /\
  (factory_out σ = None ->
   emitted σ r'.2
   = [EvLoaderInit Success; EvLoaderInit Success; EvLoaderStop] /\
   r'.1 = Returned Success /\
   factory_out r'.2 = Some {| backend_config_ := config2 |}).
Proof.
  intros Hinit. cbv zeta. rewrite !Create_run, Hinit. cbn [fst snd]. split.
  - destruct (factory_out σ); simpl;
      (erewrite emitted_app; [reflexivity|]);
      simpl; rewrite <- ?app_assoc; reflexivity.
  - intros Hnone. rewrite Hnone. simpl. repeat split.
    erewrite emitted_app; [reflexivity|].
    simpl. rewrite <- !app_assoc. reflexivity.
Qed.

(** ** Instances of the further properties *)

Lemma CreateBackend_localizes_in_order_witness :
  let E := env_of_dir "/models/m" two_bundles_dir ok_env in
  let r := CreateBackend E "/models/m" "" 0%Z initial_state in
  GetDirectoryFiles E "/models/m" true
  = (Success, ["config.pbtxt"; "model.onnx"]) /\
  GetDirectorySubdirs E "/models/m" = (Success, ["weights"; "adapters"]) /\
  localized (emitted initial_state r.2)
  = [("/models/m/adapters", 0); ("/models/m/weights", 1)] /\
  StronglySorted String_as_OT.lt ["adapters"; "weights"] /\
  exists k,
    k <= 2 /\
    localized (emitted initial_state r.2)
    = zip_with (fun d h => (JoinPath E ["/models/m"; d], h))
        (take k ["adapters"; "weights"]) [0; 1] /\
    length (localized (emitted initial_state r.2)) = k /\
    (r.1 = Returned Success -> k = 2).
Proof.
  cbv zeta. split; [reflexivity|]. split; [reflexivity|].
  split; [reflexivity|].
  destruct (CreateBackend_localizes_in_order
              (env_of_dir "/models/m" two_bundles_dir ok_env) "/models/m" ""
              0%Z initial_state ["config.pbtxt"; "model.onnx"]
              ["weights"; "adapters"] eq_refl eq_refl)
    as (Hsorted & _ & k & Hk & _ & Hloc & Hlen & Hall & _).
  split; [exact Hsorted|]. exists k.
  split; [exact Hk|]. split; [exact Hloc|]. split; [exact Hlen|exact Hall].
Defined.

Lemma CreateBackend_reads_in_order_witness :
  let E := env_of_dir "/models/m" two_bundles_dir ok_env in
  let r := CreateBackend E "/models/m" "" 0%Z initial_state in
  GetDirectoryFiles E "/models/m" true
  = (Success, ["config.pbtxt"; "model.onnx"]) /\
  GetDirectorySubdirs E "/models/m" = (Success, ["weights"; "adapters"]) /\
  reads (emitted initial_state r.2)
  = ["/models/m/config.pbtxt"; "/models/m/model.onnx"] /\
  exists j,
    j <= 2 /\
    reads (emitted initial_state r.2)
    = map (fun f => JoinPath E ["/models/m"; f])
        (take j ["config.pbtxt"; "model.onnx"]) /\
    (r.1 = Returned Success -> j = 2).
Proof.
  cbv zeta. split; [reflexivity|]. split; [reflexivity|].
  split; [reflexivity|].
  destruct (CreateBackend_reads_in_order
              (env_of_dir "/models/m" two_bundles_dir ok_env) "/models/m" ""
              0%Z initial_state ["config.pbtxt"; "model.onnx"]
              ["weights"; "adapters"] eq_refl eq_refl)
    as (_ & _ & j & Hj & Hreads & Hall & _).
  exists j. split; [exact Hj|]. split; [exact Hreads|exact Hall].
Defined.

Lemma CreateBackend_inline_is_what_was_read_witness :
  let E := env_of_dir "/models/m" mixed_dir ok_env in
  let m : ArtifactMap :=
    <[ "weights" := Localized "/tmp/models/m/weights" ]>
      {[ "model.onnx" := Inline "onnx" ]} in
  GetDirectoryFiles E "/models/m" true = (Success, ["model.onnx"]) /\
  GetDirectorySubdirs E "/models/m" = (Success, ["weights"]) /\
  artifact_maps
    (emitted initial_state
       (CreateBackend E "/models/m" "" 0%Z initial_state).2) = [m] /\
  "model.onnx" ∈ ["model.onnx"] /\
  ("model.onnx" ∉ ["weights"]) /\
  m !! "model.onnx"
  = Some (Inline (ReadTextFile E (JoinPath E ["/models/m"; "model.onnx"])).2).
Proof.
  cbv zeta.
  assert (Hnot : "model.onnx" ∉ ["weights"]).
  { intros Hin. apply list_elem_of_singleton in Hin. discriminate Hin. }
  split; [reflexivity|]. split; [reflexivity|]. split; [reflexivity|].
  split; [left|]. split; [exact Hnot|].
  apply (CreateBackend_inline_is_what_was_read
           (env_of_dir "/models/m" mixed_dir ok_env) "/models/m" "" 0%Z
           initial_state ["model.onnx"] ["weights"]);
    [reflexivity|reflexivity| |left|exact Hnot].
  vm_compute. left.
Defined.

Lemma CreateBackend_localized_is_store_path_witness :
  let E := env_of_dir "/models/m" two_bundles_dir ok_env in
  let r := CreateBackend E "/models/m" "" 0%Z initial_state in
  GetDirectoryFiles E "/models/m" true
  = (Success, ["config.pbtxt"; "model.onnx"]) /\
  GetDirectorySubdirs E "/models/m" = (Success, ["weights"; "adapters"]) /\
  set_insert_all ["weights"; "adapters"] [] !! 1 = Some "weights" /\
  forall m,
    m ∈ artifact_maps (emitted initial_state r.2) ->
    m !! "weights" = Some (Localized "/tmp/models/m/weights").
Proof.
  cbv zeta. split; [reflexivity|]. split; [reflexivity|].
  split; [reflexivity|]. intros m Hm.
  apply (CreateBackend_localized_is_store_path
           (env_of_dir "/models/m" two_bundles_dir ok_env) "/models/m" ""
           0%Z initial_state ["config.pbtxt"; "model.onnx"]
           ["weights"; "adapters"] m 1 "weights" eq_refl eq_refl Hm eq_refl).
Defined.

Lemma CreateBackend_subdirectory_wins_witness :
  let r := CreateBackend colliding_env "/models/m" "" 0%Z initial_state in
  let m : ArtifactMap := {[ "model" := Localized "/tmp/models/m/model" ]} in
  GetDirectoryFiles colliding_env "/models/m" true = (Success, ["model"]) /\
  GetDirectorySubdirs colliding_env "/models/m" = (Success, ["model"]) /\
  artifact_maps (emitted initial_state r.2) = [m] /\
  reads (emitted initial_state r.2) = ["/models/m/model"] /\
  (exists p, m !! "model" = Some (Localized p)) /\
  (forall contents, m !! "model" <> Some (Inline contents)) /\
  JoinPath colliding_env ["/models/m"; "model"]
  ∈ reads (emitted initial_state r.2).
Proof.
  cbv zeta. split; [reflexivity|]. split; [reflexivity|].
  split; [reflexivity|]. split; [reflexivity|].
  apply (CreateBackend_subdirectory_wins colliding_env "/models/m" "" 0%Z
           initial_state ["model"] ["model"]);
    [reflexivity|reflexivity| |left|left].
  vm_compute. left.
Defined.

Lemma busy_state_allocator_ahead : allocator_ahead busy_state.
Proof.
  intros h [obj Hobj]. destruct (decide (h = 0)) as [->|Hne].
  - simpl. lia.
  - simpl in Hobj. rewrite lookup_singleton_ne in Hobj by congruence.
    discriminate Hobj.
Defined.

Lemma CreateBackend_leaks_no_store_witness :
  let E := env_of_dir "/models/m" mixed_dir ok_env in
  allocator_ahead busy_state /\
  (CreateBackend E "/models/m" "" 0%Z busy_state).1 = Returned Success /\
  allocations
    (emitted busy_state (CreateBackend E "/models/m" "" 0%Z busy_state).2)
  = [1] /\
  live (CreateBackend E "/models/m" "" 0%Z busy_state).2 = live busy_state.
Proof.
  cbv zeta. split; [exact busy_state_allocator_ahead|].
  split; [reflexivity|]. split; [reflexivity|].
  apply (CreateBackend_leaks_no_store
           (env_of_dir "/models/m" mixed_dir ok_env) "/models/m" "" 0%Z
           busy_state Success busy_state_allocator_ahead).
  reflexivity.
Defined.

Lemma Create_into_occupied_factory_stops_loader_witness :
  OnnxLoader_Init ok_env = Success /\
  let r := Create ok_env tensorrt_config initial_state in
  let r' :=
    Create ok_env tensorrt_config (Create ok_env onnx_config initial_state).2
  in
  emitted initial_state r.2
  = EvLoaderInit Success
      :: match factory_out initial_state with
         | Some _ => [EvLoaderStop]
         | None => []
         end /\
  (factory_out initial_state = None ->
   emitted initial_state r'.2
   = [EvLoaderInit Success; EvLoaderInit Success; EvLoaderStop] /\
   r'.1 = Returned Success /\
   factory_out r'.2 = Some {| backend_config_ := tensorrt_config |}).
Proof.
  split; [reflexivity|].
  apply (Create_into_occupied_factory_stops_loader ok_env onnx_config
           tensorrt_config initial_state).
  reflexivity.
Defined.

